(** * argon2id: hash record format, hashing and verification

    A shallow embedding of [argon2id.go] (package [argon2id]) and of the
    parts of the Go standard library it calls ([encoding/base64],
    [regexp], [strconv], [fmt], [crypto/subtle]), followed by the
    properties of the hash record format, of [HashPassword] and of
    [Compare].

    Conventions.
    - A Go [string] is a sequence of bytes: it is a Rocq [string]
      (a list of 8-bit [ascii]).  A Go [[]byte] is a [list ascii].
    - Go's [int] is taken to be 64 bits wide (the source compares an
      [int] against [math.MaxUint32], which only compiles there).
      Machine integers are [Z] with their wrap-around written out.
    - Functions returning [(T, error)] return [error + T]; a function
      returning only [error] returns [option error], [None] being [nil]. *)

From Stdlib Require Import ZArith List String Ascii Bool Lia.
Import ListNotations.
Local Open Scope string_scope.
Local Open Scope Z_scope.

(** ** Bytes *)

Definition byte := ascii.
Definition bytes := list byte.

Definition Z_of_byte (b : byte) : Z := Z.of_N (N_of_ascii b).

(** Conversion to a byte keeps the low 8 bits (Go's [byte(x)]). *)
Definition byte_of_Z (z : Z) : byte := ascii_of_N (Z.to_N (z mod 256)).

Definition uint32 (z : Z) : Z := z mod 2 ^ 32.
Definition uint8 (z : Z) : Z := z mod 2 ^ 8.

(** [[]byte(s)] *)
Definition bytes_of_string (s : string) : bytes := list_ascii_of_string s.

(** ** Errors *)

Inductive error : Type :=
| ErrInvalidHash
| ErrInvalidComplexity
| ErrInvalidArgon2Version
| ErrMismatchedHashAndPassword
| CorruptInputError (pos : Z)       (* encoding/base64 *)
| ReaderError (msg : string).       (* whatever rand.Read reports *)

(** ** encoding/base64, for
    [base64.NewEncoding(alphabet).WithPadding(base64.NoPadding)] *)

Module Base64.

(** The encoder alphabet of line 48. *)
Definition alphabet : string :=
  "./ABCDEFGHIJKLMNOPQRSTUVWXYZabcdefghijklmnopqrstuvwxyz0123456789".

(** [enc.encode[i]] *)
Definition encode (i : Z) : ascii :=
  match String.get (Z.to_nat i) alphabet with
  | Some c => c
  | None => zero
  end.

Fixpoint index_of (c : ascii) (s : string) (i : Z) : option Z :=
  match s with
  | EmptyString => None
  | String d s' => if Ascii.eqb c d then Some i else index_of c s' (i + 1)
  end.

(** [enc.decodeMap[c]]: the index of [c] in the alphabet, [0xff] for
    every other byte. *)
Definition decodeMap (c : ascii) : Z :=
  match index_of c alphabet 0 with
  | Some i => i
  | None => 255
  end.

(** [Encoding.Encode]: three bytes give four characters; a remainder of
    one or two bytes gives two or three characters and, there being no
    padding character, nothing more. *)
Fixpoint EncodeToString (src : bytes) : string :=
  match src with
  | [] => ""
  | [b0] =>
      let val := Z.shiftl (Z_of_byte b0) 16 in
      String (encode (Z.land (Z.shiftr val 18) 63))
        (String (encode (Z.land (Z.shiftr val 12) 63)) "")
  | [b0; b1] =>
      let val := Z.lor (Z.shiftl (Z_of_byte b0) 16) (Z.shiftl (Z_of_byte b1) 8) in
      String (encode (Z.land (Z.shiftr val 18) 63))
        (String (encode (Z.land (Z.shiftr val 12) 63))
           (String (encode (Z.land (Z.shiftr val 6) 63)) ""))
  | b0 :: b1 :: b2 :: rest =>
      let val := Z.lor (Z.lor (Z.shiftl (Z_of_byte b0) 16)
                              (Z.shiftl (Z_of_byte b1) 8)) (Z_of_byte b2) in
      String (encode (Z.land (Z.shiftr val 18) 63))
        (String (encode (Z.land (Z.shiftr val 12) 63))
           (String (encode (Z.land (Z.shiftr val 6) 63))
              (String (encode (Z.land val 63)) (EncodeToString rest))))
  end.

(** What the character loop of [decodeQuantum] leaves behind: the input
    ended before a quantum started, or [dlen] six-bit values were read. *)
Record quantum : Type := mkQuantum {
  q_dbuf : list Z;      (* the values read, in order *)
  q_rest : string;      (* src[si:] *)
  q_si : Z              (* the new si *)
}.

(** The [for j := 0; j < len(dbuf); j++] loop of [decodeQuantum] from
    position [si], [j] values already in [dbuf].  '\n' and '\r' are
    skipped; with [NoPadding] no byte equals the padding character, so
    any other byte outside the alphabet is corrupt input at [si-1]
    (here [si], the position before the increment). *)
Fixpoint read_quantum (src : string) (si : Z) (j : nat) (dbuf : list Z)
  : error + quantum :=
  match j with
  | 4%nat => inr (mkQuantum dbuf src si)
  | _ =>
      match src with
      | EmptyString =>
          match j with
          | 0%nat => inr (mkQuantum dbuf src si)
          | 1%nat => inl (CorruptInputError (si - Z.of_nat j))
          | _ => inr (mkQuantum dbuf src si)
          end
      | String c rest =>
          let out := decodeMap c in
          if negb (Z.eqb out 255) then
            read_quantum rest (si + 1) (S j) (dbuf ++ [out])%list
          else if Ascii.eqb c "010" || Ascii.eqb c "013" then
            read_quantum rest (si + 1) j dbuf
          else inl (CorruptInputError si)
      end
  end.

(** The conversion at the end of [decodeQuantum]: [dlen] six-bit values
    give [dlen - 1] bytes (none when the quantum is empty). *)
Definition quantum_bytes (dbuf : list Z) : bytes :=
  let d := fun i => nth i dbuf 0 in
  let val := Z.lor (Z.lor (Z.lor (Z.shiftl (d 0%nat) 18) (Z.shiftl (d 1%nat) 12))
                          (Z.shiftl (d 2%nat) 6)) (d 3%nat) in
  firstn (Nat.pred (List.length dbuf))
    [byte_of_Z (Z.shiftr val 16); byte_of_Z (Z.shiftr val 8); byte_of_Z val].

Definition decodeQuantum (src : string) (si : Z) : error + (bytes * string * Z) :=
  match read_quantum src si 0 [] with
  | inl e => inl e
  | inr q => inr (quantum_bytes (q_dbuf q), q_rest q, q_si q)
  end.

(** [Encoding.Decode]: [for si < len(src)] decode one quantum.  (The
    8- and 4-character fast paths of the library decode the same bytes
    from characters that are all in the alphabet and fall back to
    [decodeQuantum] otherwise.)  Every quantum consumes a character, so
    [fuel = len(src)] iterations are enough. *)
Fixpoint Decode (fuel : nat) (src : string) (si : Z) : error + bytes :=
  match src with
  | EmptyString => inr []
  | _ =>
      match fuel with
      | O => inr []
      | S fuel' =>
          match decodeQuantum src si with
          | inl e => inl e
          | inr (out, rest, si') =>
              match Decode fuel' rest si' with
              | inl e => inl e
              | inr more => inr (out ++ more)%list
              end
          end
      end
  end.

(** [Encoding.DecodeString], as the callers use it: the bytes when
    [err == nil], the error otherwise. *)
Definition DecodeString (s : string) : error + bytes :=
  Decode (String.length s) s 0.

End Base64.


(** ** regexp, for patterns of the shape the source uses

    The pattern of line 72 is, between [^] and [$], a sequence of
    literal texts and of capturing groups that repeat one character
    class: [([0-9]{1,4})], [([./a-zA-Z0-9]+)].  Without the [m] flag
    [^] and [$] match only at the two ends of the text. *)

Module Regexp.

(** A character class: a list of inclusive ranges. *)
Definition class := list (ascii * ascii).

Definition in_range (lo hi c : ascii) : bool :=
  (N_of_ascii lo <=? N_of_ascii c)%N && (N_of_ascii c <=? N_of_ascii hi)%N.

Definition class_matches (cls : class) (c : ascii) : bool :=
  existsb (fun r => in_range (fst r) (snd r) c) cls.

Inductive item : Type :=
| Lit (s : string)                                (* literal text *)
| Group (cls : class) (min : nat) (max : option nat).
                               (* ([cls]{min,max}); [None] is no bound *)

Fixpoint strip_prefix (p s : string) : option string :=
  match p, s with
  | EmptyString, _ => Some s
  | String a p', String b s' => if Ascii.eqb a b then strip_prefix p' s' else None
  | String _ _, EmptyString => None
  end.

(** A greedy repetition followed by the continuation [k] of the
    pattern: one more character of the class is taken first; when the
    rest of the pattern then fails, the repetition stops here, provided
    [min] characters were taken.  [taken] is the text of the group so
    far. *)
Fixpoint match_class (cls : class) (min : nat) (max : option nat)
    (taken s : string) (k : string -> string -> option (list string))
    {struct s} : option (list string) :=
  let stop := if Nat.eqb min 0 then k taken s else None in
  match s with
  | EmptyString => stop
  | String c rest =>
      if class_matches cls c
         && match max with Some O => false | _ => true end
      then
        match match_class cls (Nat.pred min) (option_map Nat.pred max)
                (taken ++ String c "") rest k with
        | Some r => Some r
        | None => stop
        end
      else stop
  end.

(** The submatches of the groups of [items] when all of [s], up to its
    end, matches them. *)
Fixpoint match_items (items : list item) (s : string) : option (list string) :=
  match items with
  | [] => match s with EmptyString => Some [] | String _ _ => None end
  | Lit l :: items' =>
      match strip_prefix l s with
      | Some rest => match_items items' rest
      | None => None
      end
  | Group cls min max :: items' =>
      match_class cls min max "" s
        (fun cap rest => option_map (cons cap) (match_items items' rest))
  end.

(** [Regexp.FindStringSubmatch] for [^items$]: [nil] ([None]) when the
    text does not match; else the whole match, which is the text,
    followed by the text of each group. *)
Definition FindStringSubmatch (items : list item) (s : string) : option (list string) :=
  option_map (cons s) (match_items items s).

(** [Regexp.MatchString] *)
Definition MatchString (items : list item) (s : string) : bool :=
  match match_items items s with Some _ => true | None => false end.

End Regexp.

(** ** strconv.Atoi *)

Module Strconv.

Inductive NumError : Type := ErrSyntax | ErrRange.

Definition maxUint64 : Z := 2 ^ 64 - 1.

(** The fast path of [Atoi], taken for texts of 1 to 18 bytes: no
    overflow is possible there.  [ch -= '0'] wraps in a byte, so that
    [ch > 9] rejects every byte that is not a digit. *)
Fixpoint atoi_loop (s : string) (n : Z) : Z * option NumError :=
  match s with
  | EmptyString => (n, None)
  | String c s' =>
      let ch := uint8 (Z_of_byte c - 48) in
      if ch >? 9 then (0, Some ErrSyntax) else atoi_loop s' (n * 10 + ch)
  end.

Definition atoi_fast (s0 : string) : Z * option NumError :=
  let neg := match s0 with String "-" _ => true | _ => false end in
  let s := match s0 with
           | String "-" r => r
           | String "+" r => r
           | _ => s0
           end in
  match s with
  | EmptyString => (0, Some ErrSyntax)
  | _ =>
      match atoi_loop s 0 with
      | (n, None) => (if neg then - n else n, None)
      | (_, Some e) => (0, Some e)
      end
  end.

(** [ParseUint(s, 10, 64)]: the digits are accumulated; a byte that is
    not a digit is a syntax error, a value above [maxUint64] a range
    error with that maximum. *)
Fixpoint parse_uint_loop (s : string) (n : Z) : Z * option NumError :=
  match s with
  | EmptyString => (n, None)
  | String c s' =>
      let d := uint8 (Z_of_byte c - 48) in
      if d >? 9 then (0, Some ErrSyntax)
      else if n >=? maxUint64 / 10 + 1 then (maxUint64, Some ErrRange)
      else
        let n1 := n * 10 + d in
        if n1 >? maxUint64 then (maxUint64, Some ErrRange)
        else parse_uint_loop s' n1
  end.

Definition ParseUint (s : string) : Z * option NumError :=
  match s with
  | EmptyString => (0, Some ErrSyntax)
  | _ => parse_uint_loop s 0
  end.

(** [ParseInt(s, 10, 0)], the slow path of [Atoi]. *)
Definition ParseInt (s0 : string) : Z * option NumError :=
  match s0 with
  | EmptyString => (0, Some ErrSyntax)
  | _ =>
      let neg := match s0 with String "-" _ => true | _ => false end in
      let s := match s0 with
               | String "-" r => r
               | String "+" r => r
               | _ => s0
               end in
      match ParseUint s with
      | (_, Some ErrSyntax) => (0, Some ErrSyntax)
      | (un, _) =>
          let cutoff := 2 ^ 63 in
          if negb neg && (un >=? cutoff) then (cutoff - 1, Some ErrRange)
          else if neg && (un >? cutoff) then (- cutoff, Some ErrRange)
          else (if neg then - un else un, None)
      end
  end.

Definition Atoi (s : string) : Z * option NumError :=
  let sLen := String.length s in
  if Nat.ltb 0 sLen && Nat.ltb sLen 19 then atoi_fast s else ParseInt s.

End Strconv.

(** ** fmt.Sprintf, for the verbs [%d] and [%s] *)

Module Fmt.

(** An operand with the name of its Go type. *)
Inductive arg : Type :=
| ArgInt (ty : string) (n : Z)
| ArgStr (s : string).

Definition digit_char (d : Z) : ascii := byte_of_Z (48 + d).

(** The digit loop of [strconv.formatBits] in base 10: the digits are
    written from the last to the first.  A value has no more digits
    than bits, which bounds the loop. *)
Fixpoint fmt_loop (fuel : nat) (u : Z) (acc : string) : string :=
  match fuel with
  | O => acc
  | S fuel' =>
      if u >=? 10
      then fmt_loop fuel' (u / 10) (String (digit_char (u mod 10)) acc)
      else String (digit_char u) acc
  end.

Definition FormatUint (u : Z) : string :=
  fmt_loop (S (Z.to_nat (Z.log2 u))) u "".

(** [%d] of an integer. *)
Definition FormatInt (n : Z) : string :=
  if n <? 0 then String "-" (FormatUint (- n)) else FormatUint n.

Definition operand_text (a : arg) : string :=
  match a with
  | ArgInt ty n => ty ++ "=" ++ FormatInt n
  | ArgStr s => "string=" ++ s
  end.

Fixpoint extra_text (args : list arg) : string :=
  match args with
  | [] => ""
  | [a] => operand_text a
  | a :: args' => operand_text a ++ ", " ++ extra_text args'
  end.

(** The text of one verb for one operand; a verb that does not fit the
    operand prints [%!verb(type=value)]. *)
Definition print_verb (verb : ascii) (a : arg) : string :=
  match a with
  | ArgInt _ n =>
      if Ascii.eqb verb "d" then FormatInt n
      else "%!" ++ String verb ("(" ++ operand_text a ++ ")")
  | ArgStr s =>
      if Ascii.eqb verb "s" then s
      else "%!" ++ String verb ("(" ++ operand_text a ++ ")")
  end.

Fixpoint Sprintf (format : string) (args : list arg) : string :=
  match format with
  | EmptyString =>
      match args with
      | [] => ""
      | _ => "%!(EXTRA " ++ extra_text args ++ ")"
      end
  | String c tl =>
      if Ascii.eqb c "%" then
        match tl with
        | EmptyString => "%!(NOVERB)"
        | String verb rest =>
            if Ascii.eqb verb "%" then String "%" (Sprintf rest args)
            else
              match args with
              | [] => "%!" ++ String verb ("(MISSING)" ++ Sprintf rest [])
              | a :: args' => print_verb verb a ++ Sprintf rest args'
              end
        end
      else String c (Sprintf tl args)
  end.

End Fmt.

(** ** crypto/subtle *)

Module Subtle.

(** [ConstantTimeByteEq]: [int((uint32(x^y) - 1) >> 31)] *)
Definition ConstantTimeByteEq (x y : Z) : Z :=
  Z.shiftr (uint32 (uint32 (Z.lxor x y) - 1)) 31.

(** The loop [v |= x[i] ^ y[i]] over two slices of one length. *)
Fixpoint xor_fold (x y : bytes) (v : Z) : Z :=
  match x, y with
  | a :: x', b :: y' => xor_fold x' y' (Z.lor v (Z.lxor (Z_of_byte a) (Z_of_byte b)))
  | _, _ => v
  end.

Definition ConstantTimeCompare (x y : bytes) : Z :=
  if negb (Nat.eqb (List.length x) (List.length y)) then 0
  else ConstantTimeByteEq (xor_fold x y 0) 0.

End Subtle.

(** ** Package argon2id *)

(** [argon2.Version] of golang.org/x/crypto/argon2, [0x13]: the tests
    of the package expect texts that start with [$argon2id19$]. *)
Definition argon2_Version : Z := 19.

Definition MaxUint32 : Z := 2 ^ 32 - 1.
Definition MaxUint8 : Z := 2 ^ 8 - 1.

Definition saltLen : nat := 16.
Definition defaultTime : Z := 1.
Definition defaultMemory : Z := 64 * 1024.
Definition defaultThreads : Z := 4.
Definition defaultKeyLen : Z := 32.

Module hashed.
Record t : Type := mk {
  time : Z;        (* uint32 *)
  memory : Z;      (* uint32 *)
  threads : Z;     (* uint8 *)
  hash : bytes;
  salt : bytes
}.
End hashed.

Definition digit : Regexp.class := [("0", "9")]%char.
Definition alnum : Regexp.class :=
  [(".", "."); ("/", "/"); ("a", "z"); ("A", "Z"); ("0", "9")]%char.

(** [^\$argon2id([0-9]{1,4})\$([0-9]{1,10}),([0-9]{1,10}),([0-9]{1,3})\$([./a-zA-Z0-9]+)\$([./a-zA-Z0-9]+)$] *)
Definition rx : list Regexp.item :=
  [ Regexp.Lit "$argon2id"; Regexp.Group digit 1 (Some 4%nat);
    Regexp.Lit "$"; Regexp.Group digit 1 (Some 10%nat);
    Regexp.Lit ","; Regexp.Group digit 1 (Some 10%nat);
    Regexp.Lit ","; Regexp.Group digit 1 (Some 3%nat);
    Regexp.Lit "$"; Regexp.Group alnum 1 None;
    Regexp.Lit "$"; Regexp.Group alnum 1 None ].

Definition IsHashedPassword (hashedPassword : string) : bool :=
  Regexp.MatchString rx hashedPassword.

(** [rand.Reader]: asked for [n] bytes, it writes some bytes, at most
    [n], and reports an error or [nil]. *)
Definition Reader : Type := nat -> bytes * option error.

(** [rand.Read(b)] on a buffer [b]: the bytes written replace the start
    of the buffer. *)
Definition rand_Read (rd : Reader) (b : bytes) : bytes * option error :=
  let (written, err) := rd (List.length b) in
  (firstn (List.length b) (written ++ skipn (List.length written) b)%list, err).

Definition generateSalt (rd : Reader) : error + bytes :=
  let salt := repeat zero saltLen in
  match rand_Read rd salt with
  | (_, Some err) => inl err
  | (salt, None) => inr salt
  end.

Section Argon2id.

(** The derivation primitive [argon2.IDKey(password, salt, time, memory,
    threads, keyLen)], a function of its inputs. *)
Variable IDKey : bytes -> bytes -> Z -> Z -> Z -> Z -> bytes.

(** [HashPassword]; the pair [("", err)] of the source is [inl err]. *)
Definition HashPassword (rd : Reader) (password : string)
    (time memory threads keyLen : Z) : error + string :=
  let time := if time =? 0 then defaultTime else time in
  let memory := if memory =? 0 then defaultMemory else memory in
  let threads := if threads =? 0 then defaultThreads else threads in
  let keyLen := if keyLen =? 0 then defaultKeyLen else keyLen in
  match generateSalt rd with
  | inl err => inl err
  | inr salt =>
      let hash := IDKey (bytes_of_string password) salt time memory threads keyLen in
      inr (Fmt.Sprintf "$argon2id%d$%d,%d,%d$%s$%s"
             [ Fmt.ArgInt "int" argon2_Version; Fmt.ArgInt "uint32" time;
               Fmt.ArgInt "uint32" memory; Fmt.ArgInt "uint8" threads;
               Fmt.ArgStr (Base64.EncodeToString salt);
               Fmt.ArgStr (Base64.EncodeToString hash) ])
  end.

Definition DefaultHashPassword (rd : Reader) (password : string) : error + string :=
  HashPassword rd password 0 0 0 0.

Definition newHashedFromHashedPassword (hashedPassword : string) : error + hashed.t :=
  match Regexp.FindStringSubmatch rx hashedPassword with
  | None => inl ErrInvalidHash
  | Some match_ =>
      let version := fst (Strconv.Atoi (nth 1 match_ "")) in
      let time := fst (Strconv.Atoi (nth 2 match_ "")) in
      let memory := fst (Strconv.Atoi (nth 3 match_ "")) in
      let threads := fst (Strconv.Atoi (nth 4 match_ "")) in
      let salt := nth 5 match_ "" in
      let hash := nth 6 match_ "" in
      if negb (version =? argon2_Version) then inl ErrInvalidArgon2Version
      else
        match Base64.DecodeString hash with
        | inl err => inl err
        | inr rawHash =>
            match Base64.DecodeString salt with
            | inl err => inl err
            | inr rawSalt =>
                if (time =? 0) || (time >? MaxUint32) || (memory >? MaxUint32)
                   || (threads =? 0) || (threads >? MaxUint8)
                then inl ErrInvalidComplexity
                else inr (hashed.mk (uint32 time) (uint32 memory) (uint8 threads)
                            rawHash rawSalt)
            end
        end
  end.

Definition Compare (hashedPassword password : string) : option error :=
  match newHashedFromHashedPassword hashedPassword with
  | inl err => Some err
  | inr h =>
      let compareHash :=
        IDKey (bytes_of_string password) (hashed.salt h) (hashed.time h)
          (hashed.memory h) (hashed.threads h)
          (uint32 (Z.of_nat (List.length (hashed.hash h)))) in
      if Subtle.ConstantTimeCompare (hashed.hash h) compareHash =? 1 then None
      else Some ErrMismatchedHashAndPassword
  end.

End Argon2id.

(** ** Specification vocabulary *)

Fixpoint string_forall (p : ascii -> bool) (s : string) : bool :=
  match s with
  | EmptyString => true
  | String c s' => p c && string_forall p s'
  end.

(** The six-bit value the encoder takes from [val] at bit [k]. *)
Definition sextet (val k : Z) : Z := Z.land (Z.shiftr val k) 63.

(** The bytes the decoder has a value for. *)
Definition in_alphabet (c : ascii) : bool := negb (Z.eqb (Base64.decodeMap c) 255).

(** The complexity test of [newHashedFromHashedPassword]. *)
Definition bad_complexity (time memory threads : Z) : bool :=
  (time =? 0) || (time >? MaxUint32) || (memory >? MaxUint32)
  || (threads =? 0) || (threads >? MaxUint8).

Module RegexpSem.
Import Regexp.

(** The texts a sequence of items matches, with the texts of its
    groups. *)
Inductive matches : list item -> string -> list string -> Prop :=
| matches_end : matches [] "" []
| matches_lit (l : string) (items : list item) (s : string) (caps : list string) :
    matches items s caps ->
    matches (Lit l :: items) (l ++ s) caps
| matches_group (cls : class) (min : nat) (max : option nat)
    (items : list item) (run s : string) (caps : list string) :
    string_forall (class_matches cls) run = true ->
    (min <= String.length run)%nat ->
    (forall m, max = Some m -> (String.length run <= m)%nat) ->
    matches items s caps ->
    matches (Group cls min max :: items) (run ++ s) (run :: caps).

(** A text on which a repetition of [cls] cannot go on. *)
Definition stops (cls : class) (s : string) : Prop :=
  match s with
  | EmptyString => True
  | String c _ => class_matches cls c = false
  end.

(** The same, every group taking all the characters of its class that
    are there. *)
Inductive matches_max : list item -> string -> list string -> Prop :=
| matches_max_end : matches_max [] "" []
| matches_max_lit (l : string) (items : list item) (s : string) (caps : list string) :
    matches_max items s caps ->
    matches_max (Lit l :: items) (l ++ s) caps
| matches_max_group (cls : class) (min : nat) (max : option nat)
    (items : list item) (run s : string) (caps : list string) :
    string_forall (class_matches cls) run = true ->
    (min <= String.length run)%nat ->
    (forall m, max = Some m -> (String.length run <= m)%nat) ->
    stops cls s ->
    matches_max items s caps ->
    matches_max (Group cls min max :: items) (run ++ s) (run :: caps).

End RegexpSem.

(** ** The hash record format, in the words of the specification

    [$argon2id<version>$<time>,<memory>,<threads>$<salt>$<hash>] with a
    version of 1 to 4 digits, a time and a memory of 1 to 10 digits,
    threads of 1 to 3 digits, and a salt and a hash that are not empty
    and hold only characters of the codec's alphabet. *)

Module Grammar.

Definition is_digit (c : ascii) : bool :=
  existsb (Ascii.eqb c) (list_ascii_of_string "0123456789").

Definition is_alphabet_char (c : ascii) : bool :=
  existsb (Ascii.eqb c) (list_ascii_of_string Base64.alphabet).

(** The bits of the last character of an encoded text that stand for
    no bit of a byte: the low four of a final group of two characters,
    the low two of a final group of three. *)
Fixpoint unused_bits (s : string) : Z :=
  match s with
  | String _ (String c1 EmptyString) => Base64.decodeMap c1 mod 16
  | String _ (String _ (String c2 EmptyString)) => Base64.decodeMap c2 mod 4
  | String _ (String _ (String _ (String _ rest))) => unused_bits rest
  | _ => 0
  end.

(** The number a text of digits denotes, after the digits [n]. *)
Fixpoint decimal_from (s : string) (n : Z) : Z :=
  match s with
  | EmptyString => n
  | String c s' => decimal_from s' (n * 10 + (Z_of_byte c - 48))
  end.

Definition decimal (s : string) : Z := decimal_from s 0.

Definition record_text (version time memory threads salt hash : string) : string :=
  ("$argon2id" ++ version ++ "$" ++ time ++ "," ++ memory ++ "," ++ threads
     ++ "$" ++ salt ++ "$" ++ hash)%string.

Definition digits (lo hi : nat) (s : string) : Prop :=
  string_forall is_digit s = true
  /\ (lo <= String.length s)%nat /\ (String.length s <= hi)%nat.

Definition segment (s : string) : Prop :=
  string_forall is_alphabet_char s = true /\ (1 <= String.length s)%nat.

Definition fields_ok (version time memory threads salt hash : string) : Prop :=
  digits 1 4 version /\ digits 1 10 time /\ digits 1 10 memory
  /\ digits 1 3 threads /\ segment salt /\ segment hash.

Definition well_formed (t : string) : Prop :=
  exists version time memory threads salt hash,
    t = record_text version time memory threads salt hash
    /\ fields_ok version time memory threads salt hash.

End Grammar.

(** ** The checks of parsing, one by one

    The specification lists five checks and an order in which the
    first that fails decides the error.  [run_check] is what one check
    alone says of a text; [first_failure] runs a list of checks in
    order. *)

Module Checks.

Inductive check : Type :=
| GrammarMatch | SaltDecode | HashDecode | VersionCheck | ComplexityBounds.

Definition decode_error (s : string) : option error :=
  match Base64.DecodeString s with
  | inl e => Some e
  | inr _ => None
  end.

Definition run_check (c : check) (t : string) : option error :=
  match Regexp.FindStringSubmatch rx t with
  | None =>
      match c with
      | GrammarMatch => Some ErrInvalidHash
      | _ => None
      end
  | Some m =>
      match c with
      | GrammarMatch => None
      | SaltDecode => decode_error (nth 5 m "")
      | HashDecode => decode_error (nth 6 m "")
      | VersionCheck =>
          if Grammar.decimal (nth 1 m "") =? argon2_Version then None
          else Some ErrInvalidArgon2Version
      | ComplexityBounds =>
          let time := Grammar.decimal (nth 2 m "") in
          let memory := Grammar.decimal (nth 3 m "") in
          let threads := Grammar.decimal (nth 4 m "") in
          if (time =? 0) || (time >? MaxUint32) || (memory >? MaxUint32)
             || (threads =? 0) || (threads >? MaxUint8)
          then Some ErrInvalidComplexity
          else None
      end
  end.

Fixpoint first_failure (order : list check) (t : string) : option error :=
  match order with
  | [] => None
  | c :: order' =>
      match run_check c t with
      | Some e => Some e
      | None => first_failure order' t
      end
  end.

(** The order the specification states. *)
Definition stated_order : list check :=
  [GrammarMatch; SaltDecode; HashDecode; VersionCheck; ComplexityBounds].

(** The order of [newHashedFromHashedPassword]. *)
Definition source_order : list check :=
  [GrammarMatch; VersionCheck; HashDecode; SaltDecode; ComplexityBounds].

End Checks.

(** ** Stand-ins for the external collaborators, for concrete runs *)

Module Fixture.

(** A derivation primitive: [keyLen] bytes that depend on the lengths of
    the password and of the salt. *)
Definition IDKey (password salt : bytes) (time memory threads keyLen : Z) : bytes :=
  repeat (byte_of_Z (Z.of_nat (List.length password + List.length salt)))
    (Z.to_nat keyLen).

(** A source that fills the buffer with the bytes of ['a']. *)
Definition full_reader : Reader := fun n => (repeat "a"%char n, None).

(** A source that has only the ten bytes of [incomplete], as in
    [TestHashPasswordWithSaltError]. *)
Definition short_reader : Reader :=
  fun n => (firstn n (bytes_of_string "incomplete"),
            if Nat.leb n 10 then None else Some (ReaderError "unexpected EOF")).

End Fixture.

(** ** The command (cmd/argon2id/main.go) *)

Module Cli.

Definition prompt : string := "Password:".

Definition exitStatusNormal : Z := 0.
Definition exitStatusError : Z := 1.
Definition exitStatusMismatchHashAndPassword : Z := 2.

(** A line feed. *)
Definition nl : string := String "010" "".

(** [string(b)] *)
Definition string_of_bytes (b : bytes) : string := string_of_list_ascii b.

(** [err.Error()]: the texts of lines 36 to 45 of argon2id.go, that of
    [base64.CorruptInputError], and the text of whatever error the
    randomness source reported. *)
Definition Error (e : error) : string :=
  match e with
  | ErrInvalidHash => "synacor/argon2id: the hashed password is not a valid hash"
  | ErrInvalidComplexity =>
      "synacor/argon2id: the hashed password has invalid complexity values"
  | ErrInvalidArgon2Version =>
      Fmt.Sprintf "synacor/argon2id: argon2 version is not %d"
        [Fmt.ArgInt "int" argon2_Version]
  | ErrMismatchedHashAndPassword =>
      "synacor/argon2id: hashedPassword is not the hash of the given password"
  | CorruptInputError pos =>
      ("illegal base64 data at input byte " ++ Fmt.FormatInt pos)%string
  | ReaderError msg => msg
  end.

(** The values of the flags after [flagset.Parse]; the four numbers are
    Go [int]s. *)
Record flags : Type := mkFlags {
  compareHashedPassword : string;    (* -c *)
  quiet : bool;                      (* -q *)
  omitNewline : bool;                (* -n *)
  timeComplexity : Z;                (* -time *)
  memoryComplexity : Z;              (* -memory *)
  numThreads : Z;                    (* -threads *)
  keyLen : Z;                        (* -keylen *)
  help : bool                        (* -h *)
}.

(** What a run leaves behind: the exit status and what was written to
    the two writers. *)
Record outcome : Type := mkOutcome {
  exitStatus : Z;
  stdout : string;
  stderr : string
}.

Section Command.

Variable IDKey : bytes -> bytes -> Z -> Z -> Z -> Z -> bytes.

(** The randomness source of the run. *)
Variable rd : Reader.

(** [os.Args[0]] and the text [flagset.PrintDefaults] writes. *)
Variables arg0 defaults : string.

(** [usage]: three formatted lines, then the defaults of the flags. *)
Definition usage : string :=
  (Fmt.Sprintf ("usage of %s..." ++ nl) [Fmt.ArgStr arg0]
   ++ Fmt.Sprintf ("         %s # prompt for password, output a hash of the password" ++ nl)
        [Fmt.ArgStr arg0]
   ++ Fmt.Sprintf
        ("         %s -c <hashed-password> [-n] [-time <time-complexity>] [-memory <memory-complexity>] [-threads <num-threads>] [-keylen <key-length>] # compare the password (via prompt) to the hashed-password"
           ++ nl)
        [Fmt.ArgStr arg0]
   ++ defaults)%string.

(** [runCommand], given the parsed flags [f] and what [readPassword]
    returned: the bytes read and, when it failed, the text of its
    error.  Each writer is the text written to it so far. *)
Definition runCommand (f : flags) (readPassword : bytes * option string) : outcome :=
  if help f then mkOutcome exitStatusError "" usage
  else
    let out := if negb (quiet f) then Fmt.Sprintf prompt [] else "" in
    match readPassword with
    | (_, Some err) =>
        mkOutcome exitStatusError out
          ("could not read password: " ++ err ++ nl)%string
    | (pwBytes, None) =>
        if Nat.eqb (List.length pwBytes) 0 then
          mkOutcome exitStatusError out ("a password is required" ++ nl)%string
        else
          let out := if negb (quiet f) then (out ++ nl)%string else out in
          let password := string_of_bytes pwBytes in
          if Nat.ltb 0 (String.length (compareHashedPassword f)) then
            match Compare IDKey (compareHashedPassword f) password with
            | Some err =>
                mkOutcome
                  (match err with
                   | ErrMismatchedHashAndPassword => exitStatusMismatchHashAndPassword
                   | _ => exitStatusError
                   end)
                  out (Error err ++ nl)%string
            | None =>
                mkOutcome exitStatusNormal
                  (out ++ "OK - password matches hashed password" ++ nl)%string ""
            end
          else
            match HashPassword IDKey rd password
                    (uint32 (timeComplexity f)) (uint32 (memoryComplexity f))
                    (uint8 (numThreads f)) (uint32 (keyLen f)) with
            | inl err =>
                mkOutcome exitStatusError out
                  ("could not hash password: " ++ Error err)%string
            | inr hashedPassword =>
                mkOutcome exitStatusNormal
                  (out ++ hashedPassword
                       ++ (if negb (omitNewline f) then nl else ""))%string ""
            end
    end.

End Command.

End Cli.

(** A run of the command as the tests of main_test.go set it up: the
    program name [argon2id], the stand-in primitive and a randomness
    source that delivers. *)
Module CommandFixture.

Definition run (f : Cli.flags) (pw : string) (err : option string) : Cli.outcome :=
  Cli.runCommand Fixture.IDKey Fixture.full_reader "argon2id" "" f
    (bytes_of_string pw, err).

End CommandFixture.

(** The parameter [x] of [HashPassword], or its default [d] when [x]
    is zero. *)
Definition or_default (x d : Z) : Z := if x =? 0 then d else x.

(** The last character of a text. *)
Fixpoint last_char (s : string) : option ascii :=
  match s with
  | EmptyString => None
  | String c EmptyString => Some c
  | String _ s' => last_char s'
  end.

(** * The tests of the package, on the embedding

    The expectations of [argon2id_test.go] that do not depend on the
    bytes the real derivation primitive returns. *)

Module PackageTests.

Example TestHashPassword_prefix_and_length :
  match HashPassword Fixture.IDKey Fixture.full_reader "test2" 2 (32 * 1024) 2 17 with
  | inr h =>
      String.prefix "$argon2id19$2,32768,2$" h = true /\ String.length h = 68%nat
      /\ Compare Fixture.IDKey h "test2" = None
      /\ Compare Fixture.IDKey h "bad-password" = Some ErrMismatchedHashAndPassword
  | inl _ => False
  end.
Proof. repeat split; reflexivity. Qed.

Example TestDefaultHashPassword_prefix_and_length :
  match DefaultHashPassword Fixture.IDKey Fixture.full_reader "test" with
  | inr h =>
      String.prefix "$argon2id19$1,65536,4$" h = true /\ String.length h = 88%nat
      /\ IsHashedPassword h = true
  | inl _ => False
  end.
Proof. repeat split; reflexivity. Qed.

Example TestHashPasswordWithSaltError :
  DefaultHashPassword Fixture.IDKey Fixture.short_reader "test"
  = inl (ReaderError "unexpected EOF").
Proof. reflexivity. Qed.

Example TestIsHashedPassword_bad :
  IsHashedPassword "$argon2id,2,32768,2$bad" = false.
Proof. reflexivity. Qed.

Example TestFailure_bad_hash :
  Compare Fixture.IDKey "bad-hash" "test4" = Some ErrInvalidHash.
Proof. reflexivity. Qed.

Example TestFailure_version :
  Compare Fixture.IDKey
    "$argon2id99$1,65536,4$PWhquEXHn6p9NoOuQQVwHw$J2fO7RdTPYGdoBb52cyYVEMdprPkAa/2hny3n0tGNm4"
    "test4" = Some ErrInvalidArgon2Version.
Proof. reflexivity. Qed.

Example TestFailure_invalid_salt :
  Compare Fixture.IDKey
    "$argon2id19$1,65536,4$a$J2fO7RdTPYGdoBb52cyYVEMdprPkAa/2hny3n0tGNm4" "test4"
  = Some (CorruptInputError 0).
Proof. reflexivity. Qed.

Example TestFailure_invalid_hash :
  Compare Fixture.IDKey "$argon2id19$1,65536,4$PWhquEXHn6p9NoOuQQVwHw$a" "test4"
  = Some (CorruptInputError 0).
Proof. reflexivity. Qed.

Example TestFailure_time_too_small :
  Compare Fixture.IDKey
    "$argon2id19$0,65536,4$Oy7MSyjRTCTMTAzROSvSGO$QV5KGjrKZO6C.8St0T7HCTL0AvuCxgf5O.Okwj90a3a"
    "time too small" = Some ErrInvalidComplexity.
Proof. reflexivity. Qed.

Example TestFailure_time_too_large :
  Compare Fixture.IDKey
    "$argon2id19$4294967296,65536,4$Oy7MSyjRTCTMTAzROSvSGO$QV5KGjrKZO6C.8St0T7HCTL0AvuCxgf5O.Okwj90a3a"
    "time too large" = Some ErrInvalidComplexity.
Proof. reflexivity. Qed.

Example TestFailure_memory_too_large :
  Compare Fixture.IDKey
    "$argon2id19$1,4294967296,4$Oy7MSyjRTCTMTAzROSvSGO$QV5KGjrKZO6C.8St0T7HCTL0AvuCxgf5O.Okwj90a3a"
    "memory too large" = Some ErrInvalidComplexity.
Proof. reflexivity. Qed.

Example TestFailure_threads_too_low :
  Compare Fixture.IDKey
    "$argon2id19$1,65536,0$Oy7MSyjRTCTMTAzROSvSGO$QV5KGjrKZO6C.8St0T7HCTL0AvuCxgf5O.Okwj90a3a"
    "threads too low" = Some ErrInvalidComplexity.
Proof. reflexivity. Qed.

Example TestFailure_threads_too_large :
  Compare Fixture.IDKey
    "$argon2id19$1,65536,256$Oy7MSyjRTCTMTAzROSvSGO$QV5KGjrKZO6C.8St0T7HCTL0AvuCxgf5O.Okwj90a3a"
    "threads too large" = Some ErrInvalidComplexity.
Proof. reflexivity. Qed.

End PackageTests.

(** ** Arithmetic of the codec *)

Section BitArithmetic.

Lemma lor_shiftl_add (a b k : Z) :
  0 <= k -> 0 <= b < 2 ^ k -> Z.lor (Z.shiftl a k) b = a * 2 ^ k + b.
Proof.
  intros Hk Hb.
  rewrite Z.shiftl_mul_pow2 by assumption.
  assert (Hland : Z.land (a * 2 ^ k) b = 0).
  { apply Z.bits_inj'; intros n Hn.
    rewrite Z.land_spec, Z.bits_0.
    destruct (Z_lt_le_dec n k) as [Hlt | Hge].
    - now rewrite Z.mul_pow2_bits_low.
    - rewrite <- (Z.mod_small b (2 ^ k)) by assumption.
      rewrite Z.mod_pow2_bits_high by lia.
      apply andb_false_r. }
  now rewrite <- Z.lxor_lor, <- Z.add_nocarry_lxor.
Qed.

Lemma land_63 (a : Z) : Z.land a 63 = a mod 64.
Proof. change 63 with (Z.ones 6). now rewrite Z.land_ones. Qed.

Lemma shiftr_div (a k : Z) : 0 <= k -> Z.shiftr a k = a / 2 ^ k.
Proof. intros; now apply Z.shiftr_div_pow2. Qed.

Lemma Z_of_byte_range (b : byte) : 0 <= Z_of_byte b < 256.
Proof.
  unfold Z_of_byte. pose proof (N_ascii_bounded b). lia.
Qed.

Lemma byte_of_Z_of_byte (b : byte) : byte_of_Z (Z_of_byte b) = b.
Proof.
  unfold byte_of_Z.
  rewrite Z.mod_small by apply Z_of_byte_range.
  unfold Z_of_byte. rewrite N2Z.id. apply ascii_N_embedding.
Qed.

Lemma Z_of_byte_of_Z (z : Z) : Z_of_byte (byte_of_Z z) = z mod 256.
Proof.
  unfold Z_of_byte, byte_of_Z.
  pose proof (Z.mod_pos_bound z 256 ltac:(lia)).
  rewrite N_ascii_embedding by lia. lia.
Qed.

Lemma byte_of_Z_mod (z : Z) : byte_of_Z (z mod 256) = byte_of_Z z.
Proof. unfold byte_of_Z. now rewrite Z.mod_mod. Qed.

End BitArithmetic.

Section Sextets.

Lemma lor_add_low (a b k : Z) :
  0 <= k -> a mod 2 ^ k = 0 -> 0 <= b < 2 ^ k -> Z.lor a b = a + b.
Proof.
  intros Hk Ha Hb.
  assert (Hp : 0 < 2 ^ k) by (apply Z.pow_pos_nonneg; lia).
  assert (Hq : a = a / 2 ^ k * 2 ^ k).
  { pose proof (Z.div_mod a (2 ^ k)). lia. }
  rewrite Hq.
  rewrite <- (Z.shiftl_mul_pow2 _ k) by assumption.
  rewrite lor_shiftl_add by assumption.
  now rewrite Z.shiftl_mul_pow2.
Qed.

(** [val] of the encoder, for three bytes. *)
Lemma encode_val (x0 x1 x2 : Z) :
  0 <= x0 < 256 -> 0 <= x1 < 256 -> 0 <= x2 < 256 ->
  Z.lor (Z.lor (Z.shiftl x0 16) (Z.shiftl x1 8)) x2
  = x0 * 65536 + x1 * 256 + x2.
Proof.
  intros R0 R1 R2.
  rewrite !Z.shiftl_mul_pow2 by lia.
  change (2 ^ 16) with 65536; change (2 ^ 8) with 256.
  rewrite (lor_add_low (x0 * 65536) (x1 * 256) 16);
    [ | lia | apply Z.mod_mul; lia | change (2 ^ 16) with 65536; lia ].
  rewrite (lor_add_low _ x2 8);
    [ reflexivity | lia | | change (2 ^ 8) with 256; lia ].
  change (2 ^ 8) with 256. Z.div_mod_to_equations. lia.
Qed.

(** [val] of the decoder, for four six-bit values. *)
Lemma decode_val (d0 d1 d2 d3 : Z) :
  0 <= d0 < 64 -> 0 <= d1 < 64 -> 0 <= d2 < 64 -> 0 <= d3 < 64 ->
  Z.lor (Z.lor (Z.lor (Z.shiftl d0 18) (Z.shiftl d1 12)) (Z.shiftl d2 6)) d3
  = d0 * 262144 + d1 * 4096 + d2 * 64 + d3.
Proof.
  intros R0 R1 R2 R3.
  rewrite !Z.shiftl_mul_pow2 by lia.
  change (2 ^ 18) with 262144; change (2 ^ 12) with 4096; change (2 ^ 6) with 64.
  rewrite (lor_add_low (d0 * 262144) (d1 * 4096) 18);
    [ | lia | apply Z.mod_mul; lia | change (2 ^ 18) with 262144; lia ].
  rewrite (lor_add_low _ (d2 * 64) 12);
    [ | lia | | change (2 ^ 12) with 4096; lia ].
  2:{ change (2 ^ 12) with 4096. Z.div_mod_to_equations. lia. }
  rewrite (lor_add_low _ d3 6);
    [ reflexivity | lia | | change (2 ^ 6) with 64; lia ].
  change (2 ^ 6) with 64. Z.div_mod_to_equations. lia.
Qed.

Lemma sextet_div (val k : Z) : 0 <= k -> sextet val k = (val / 2 ^ k) mod 64.
Proof. intros; unfold sextet. now rewrite land_63, shiftr_div. Qed.

Lemma sextet_range (val k : Z) : 0 <= k -> 0 <= sextet val k < 64.
Proof. intros; rewrite sextet_div by assumption. apply Z.mod_pos_bound; lia. Qed.

Lemma land_63_sextet (val : Z) : Z.land val 63 = sextet val 0.
Proof. unfold sextet. now rewrite Z.shiftr_0_r. Qed.

End Sextets.

(** ** The codec: lemmas *)

Module Base64Facts.
Import Base64.

Lemma decodeMap_encode (i : Z) : 0 <= i < 64 -> decodeMap (encode i) = i.
Proof.
  intros Hi.
  rewrite <- (Z2Nat.id i) by lia.
  assert (Hn : (Z.to_nat i < 64)%nat) by lia.
  revert Hn. generalize (Z.to_nat i) as n. intros n Hn.
  do 64 (destruct n as [ | n]; [ reflexivity | ]).
  lia.
Qed.

Lemma encode_in_alphabet (i : Z) : 0 <= i < 64 -> in_alphabet (encode i) = true.
Proof.
  intros Hi. unfold in_alphabet.
  rewrite decodeMap_encode by assumption.
  apply negb_true_iff, Z.eqb_neq. lia.
Qed.

Lemma read_quantum_full (src : string) (si : Z) (dbuf : list Z) :
  read_quantum src si 4 dbuf = inr (mkQuantum dbuf src si).
Proof. destruct src; reflexivity. Qed.

Lemma read_quantum_char (c : ascii) (rest : string) (si : Z) (j : nat) (dbuf : list Z) :
  (j < 4)%nat -> in_alphabet c = true ->
  read_quantum (String c rest) si j dbuf
  = read_quantum rest (si + 1) (S j) (dbuf ++ [decodeMap c]).
Proof.
  intros Hj Hc. unfold in_alphabet in Hc.
  do 4 (destruct j as [ | j]; [ cbn [read_quantum]; now rewrite Hc | ]).
  lia.
Qed.

Lemma decodeQuantum_4 (c0 c1 c2 c3 : ascii) (rest : string) (si : Z) :
  in_alphabet c0 = true -> in_alphabet c1 = true ->
  in_alphabet c2 = true -> in_alphabet c3 = true ->
  decodeQuantum (String c0 (String c1 (String c2 (String c3 rest)))) si
  = inr (quantum_bytes [decodeMap c0; decodeMap c1; decodeMap c2; decodeMap c3],
         rest, si + 4).
Proof.
  intros H0 H1 H2 H3. unfold decodeQuantum.
  repeat (rewrite read_quantum_char; [ | lia | assumption ]).
  rewrite read_quantum_full. cbn.
  replace (si + 1 + 1 + 1 + 1) with (si + 4) by lia. reflexivity.
Qed.

Lemma decodeQuantum_3 (c0 c1 c2 : ascii) (si : Z) :
  in_alphabet c0 = true -> in_alphabet c1 = true -> in_alphabet c2 = true ->
  decodeQuantum (String c0 (String c1 (String c2 ""))) si
  = inr (quantum_bytes [decodeMap c0; decodeMap c1; decodeMap c2], "", si + 3).
Proof.
  intros H0 H1 H2. unfold decodeQuantum.
  repeat (rewrite read_quantum_char; [ | lia | assumption ]).
  cbn. replace (si + 1 + 1 + 1) with (si + 3) by lia. reflexivity.
Qed.

Lemma decodeQuantum_2 (c0 c1 : ascii) (si : Z) :
  in_alphabet c0 = true -> in_alphabet c1 = true ->
  decodeQuantum (String c0 (String c1 "")) si
  = inr (quantum_bytes [decodeMap c0; decodeMap c1], "", si + 2).
Proof.
  intros H0 H1. unfold decodeQuantum.
  repeat (rewrite read_quantum_char; [ | lia | assumption ]).
  cbn. replace (si + 1 + 1) with (si + 2) by lia. reflexivity.
Qed.

Lemma decodeQuantum_1 (c0 : ascii) (si : Z) :
  in_alphabet c0 = true ->
  decodeQuantum (String c0 "") si = inl (CorruptInputError si).
Proof.
  intros H0. unfold decodeQuantum.
  rewrite read_quantum_char; [ | lia | assumption ].
  cbn. do 2 f_equal. lia.
Qed.

(** The bytes of a quantum, as quotients of the 24-bit value. *)
Lemma quantum_bytes_4 (d0 d1 d2 d3 : Z) :
  0 <= d0 < 64 -> 0 <= d1 < 64 -> 0 <= d2 < 64 -> 0 <= d3 < 64 ->
  let val := d0 * 262144 + d1 * 4096 + d2 * 64 + d3 in
  quantum_bytes [d0; d1; d2; d3]
  = [byte_of_Z (val / 65536); byte_of_Z (val / 256); byte_of_Z val].
Proof.
  intros R0 R1 R2 R3 val. unfold quantum_bytes.
  cbn [nth List.length Nat.pred firstn].
  rewrite decode_val by assumption.
  rewrite !shiftr_div by lia. reflexivity.
Qed.

Lemma quantum_bytes_3 (d0 d1 d2 : Z) :
  0 <= d0 < 64 -> 0 <= d1 < 64 -> 0 <= d2 < 64 ->
  let val := d0 * 262144 + d1 * 4096 + d2 * 64 in
  quantum_bytes [d0; d1; d2] = [byte_of_Z (val / 65536); byte_of_Z (val / 256)].
Proof.
  intros R0 R1 R2 val. unfold quantum_bytes.
  cbn [nth List.length Nat.pred firstn].
  rewrite decode_val by (assumption || lia).
  rewrite !shiftr_div by lia. rewrite Z.add_0_r. reflexivity.
Qed.

Lemma quantum_bytes_2 (d0 d1 : Z) :
  0 <= d0 < 64 -> 0 <= d1 < 64 ->
  let val := d0 * 262144 + d1 * 4096 in
  quantum_bytes [d0; d1] = [byte_of_Z (val / 65536)].
Proof.
  intros R0 R1 val. unfold quantum_bytes.
  cbn [nth List.length Nat.pred firstn].
  rewrite decode_val by (assumption || lia).
  rewrite !shiftr_div by lia. rewrite Z.mul_0_l, !Z.add_0_r. reflexivity.
Qed.

Lemma byte_of_Z_eq (z : Z) (b : byte) : z mod 256 = Z_of_byte b -> byte_of_Z z = b.
Proof.
  intros H. rewrite <- byte_of_Z_mod, H. apply byte_of_Z_of_byte.
Qed.

(** The encoder's equations, with [val] as a sum. *)
Lemma EncodeToString_3 (b0 b1 b2 : byte) (rest : bytes) :
  let val := Z_of_byte b0 * 65536 + Z_of_byte b1 * 256 + Z_of_byte b2 in
  EncodeToString (b0 :: b1 :: b2 :: rest)
  = String (encode (sextet val 18)) (String (encode (sextet val 12))
      (String (encode (sextet val 6)) (String (encode (sextet val 0))
         (EncodeToString rest)))).
Proof.
  intros val. cbn [EncodeToString].
  rewrite encode_val by apply Z_of_byte_range.
  fold val. rewrite (land_63_sextet val). reflexivity.
Qed.

Lemma EncodeToString_2 (b0 b1 : byte) :
  let val := Z_of_byte b0 * 65536 + Z_of_byte b1 * 256 in
  EncodeToString [b0; b1]
  = String (encode (sextet val 18)) (String (encode (sextet val 12))
      (String (encode (sextet val 6)) "")).
Proof.
  intros val. cbn [EncodeToString].
  rewrite <- (Z.lor_0_r (Z.lor _ _)).
  rewrite encode_val by (apply Z_of_byte_range || lia).
  rewrite Z.add_0_r. reflexivity.
Qed.

Lemma EncodeToString_1 (b0 : byte) :
  let val := Z_of_byte b0 * 65536 in
  EncodeToString [b0]
  = String (encode (sextet val 18)) (String (encode (sextet val 12)) "").
Proof.
  intros val. cbn [EncodeToString].
  rewrite Z.shiftl_mul_pow2 by lia. reflexivity.
Qed.

Lemma list_ind3 {A : Type} (P : list A -> Prop) :
  P [] -> (forall a, P [a]) -> (forall a b, P [a; b]) ->
  (forall a b c l, P l -> P (a :: b :: c :: l)) ->
  forall l, P l.
Proof.
  intros H0 H1 H2 H3.
  fix IH 1.
  intros [ | a [ | b [ | c l ] ] ];
    [ exact H0 | exact (H1 a) | exact (H2 a b) | exact (H3 a b c l (IH l)) ].
Qed.

Ltac sextets_arith :=
  rewrite ?sextet_div by lia;
  change (2 ^ 18) with 262144; change (2 ^ 12) with 4096;
  change (2 ^ 6) with 64; change (2 ^ 0) with 1;
  Z.div_mod_to_equations; lia.

(** Decoding what the encoder wrote, from any position and with any
    fuel that covers the text. *)
Lemma Decode_EncodeToString (b : bytes) :
  forall (fuel : nat) (si : Z),
    (String.length (EncodeToString b) <= fuel)%nat ->
    Decode fuel (EncodeToString b) si = inr b.
Proof.
  induction b as [ | b0 | b0 b1 | b0 b1 b2 rest IH ] using list_ind3;
    intros fuel si Hfuel.
  - destruct fuel; reflexivity.
  - pose proof (Z_of_byte_range b0) as R0.
    rewrite EncodeToString_1 in *. cbv zeta in *.
    destruct fuel as [ | fuel]; [ cbn in Hfuel; lia | ].
    cbn [Decode].
    rewrite decodeQuantum_2 by (apply encode_in_alphabet, sextet_range; lia).
    rewrite !decodeMap_encode by (apply sextet_range; lia).
    rewrite quantum_bytes_2 by (apply sextet_range; lia). cbv zeta.
    destruct fuel; cbn [Decode app]; do 2 f_equal;
      apply byte_of_Z_eq; sextets_arith.
  - pose proof (Z_of_byte_range b0) as R0.
    pose proof (Z_of_byte_range b1) as R1.
    rewrite EncodeToString_2 in *. cbv zeta in *.
    destruct fuel as [ | fuel]; [ cbn in Hfuel; lia | ].
    cbn [Decode].
    rewrite decodeQuantum_3 by (apply encode_in_alphabet, sextet_range; lia).
    rewrite !decodeMap_encode by (apply sextet_range; lia).
    rewrite quantum_bytes_3 by (apply sextet_range; lia). cbv zeta.
    destruct fuel; cbn [Decode app]; do 2 f_equal;
      [ apply byte_of_Z_eq; sextets_arith | f_equal; apply byte_of_Z_eq; sextets_arith
      | apply byte_of_Z_eq; sextets_arith | f_equal; apply byte_of_Z_eq; sextets_arith ].
  - pose proof (Z_of_byte_range b0) as R0.
    pose proof (Z_of_byte_range b1) as R1.
    pose proof (Z_of_byte_range b2) as R2.
    rewrite EncodeToString_3 in *. cbv zeta in *.
    destruct fuel as [ | fuel]; [ cbn in Hfuel; lia | ].
    cbn [Decode].
    rewrite decodeQuantum_4 by (apply encode_in_alphabet, sextet_range; lia).
    rewrite !decodeMap_encode by (apply sextet_range; lia).
    rewrite quantum_bytes_4 by (apply sextet_range; lia). cbv zeta.
    rewrite IH by (cbn in Hfuel; lia).
    cbn [app]. do 2 f_equal; [ | f_equal; [ | f_equal ] ];
      apply byte_of_Z_eq; sextets_arith.
Qed.

Lemma in_alphabet_spec (c : ascii) :
  in_alphabet c = true -> 0 <= decodeMap c < 64 /\ encode (decodeMap c) = c.
Proof.
  destruct c as [[] [] [] [] [] [] [] []]; intros H;
    try discriminate H; split; try reflexivity; cbn; lia.
Qed.

Lemma string_ind4 (P : string -> Prop) :
  P "" -> (forall a, P (String a "")) -> (forall a b, P (String a (String b ""))) ->
  (forall a b c, P (String a (String b (String c "")))) ->
  (forall a b c d s, P s -> P (String a (String b (String c (String d s))))) ->
  forall s, P s.
Proof.
  intros H0 H1 H2 H3 H4.
  fix IH 1.
  intros [ | a [ | b [ | c [ | d s ] ] ] ];
    [ exact H0 | exact (H1 a) | exact (H2 a b) | exact (H3 a b c)
    | exact (H4 a b c d s (IH s)) ].
Qed.

(** The encoder writes characters of the alphabet, and at least one
    for at least one byte. *)
Lemma EncodeToString_alphabet (b : bytes) :
  string_forall in_alphabet (EncodeToString b) = true.
Proof.
  induction b as [ | b0 | b0 b1 | b0 b1 b2 rest IH ] using list_ind3.
  - reflexivity.
  - rewrite EncodeToString_1. cbn [string_forall].
    rewrite !encode_in_alphabet by (apply sextet_range; lia). reflexivity.
  - rewrite EncodeToString_2. cbn [string_forall].
    rewrite !encode_in_alphabet by (apply sextet_range; lia). reflexivity.
  - rewrite EncodeToString_3. cbn [string_forall].
    rewrite !encode_in_alphabet by (apply sextet_range; lia). now rewrite IH.
Qed.

Lemma EncodeToString_length (b : bytes) :
  (1 <= List.length b)%nat -> (1 <= String.length (EncodeToString b))%nat.
Proof.
  destruct b as [ | b0 [ | b1 [ | b2 rest ] ] ]; cbn; lia.
Qed.

Lemma Decode_nil (fuel : nat) (si : Z) : Decode fuel "" si = inr [].
Proof. destruct fuel; reflexivity. Qed.

(** A quantum that starts on a text that is not empty consumes some of
    it. *)
Lemma read_quantum_rest (src : string) :
  forall (si : Z) (j : nat) (dbuf : list Z) (q : quantum),
    read_quantum src si j dbuf = inr q ->
    (String.length (q_rest q) <= String.length src)%nat
    /\ ((j < 4)%nat -> src <> "" ->
        (String.length (q_rest q) < String.length src)%nat).
Proof.
  induction src as [ | c rest IH]; intros si j dbuf q H.
  - do 5 (destruct j as [ | j];
          [ inversion H; cbn; (split; [ lia | congruence ]) | ]).
    inversion H; cbn; (split; [ lia | congruence ]).
  - assert (Hstep : forall j',
              (if negb (Z.eqb (decodeMap c) 255)
               then read_quantum rest (si + 1) (S j') (dbuf ++ [decodeMap c])
               else if Ascii.eqb c "010" || Ascii.eqb c "013"
                    then read_quantum rest (si + 1) j' dbuf
                    else inl (CorruptInputError si)) = inr q ->
              (String.length (q_rest q) < String.length (String c rest))%nat).
    { intros j' Hq. cbn [String.length].
      destruct (negb (Z.eqb (decodeMap c) 255)).
      - apply IH in Hq. lia.
      - destruct (Ascii.eqb c "010" || Ascii.eqb c "013"); [ | discriminate ].
        apply IH in Hq. lia. }
    do 4 (destruct j as [ | j];
          [ cbn [read_quantum] in H; apply Hstep in H;
            split; [ lia | intros; exact H ] | ]).
    destruct j as [ | j].
    + inversion H; cbn. split; lia.
    + cbn [read_quantum] in H. apply Hstep in H. split; [ lia | intros; exact H ].
Qed.

(** Fuel that covers the text is enough: more changes nothing. *)
Lemma Decode_fuel (n : nat) :
  forall (s : string) (fuel1 fuel2 : nat) (si : Z),
    (String.length s <= n)%nat ->
    (String.length s <= fuel1)%nat -> (String.length s <= fuel2)%nat ->
    Decode fuel1 s si = Decode fuel2 s si.
Proof.
  induction n as [ | n IH]; intros s fuel1 fuel2 si Hn H1 H2.
  - destruct s; [ | cbn in Hn; lia ]. now rewrite !Decode_nil.
  - destruct s as [ | c s]; [ now rewrite !Decode_nil | ].
    destruct fuel1 as [ | fuel1]; [ cbn in H1; lia | ].
    destruct fuel2 as [ | fuel2]; [ cbn in H2; lia | ].
    cbn [Decode]. unfold decodeQuantum.
    destruct (read_quantum (String c s) si 0 []) as [e | q] eqn:Hq; [ reflexivity | ].
    apply read_quantum_rest in Hq as [_ Hlt].
    specialize (Hlt ltac:(lia) ltac:(discriminate)).
    rewrite (IH (q_rest q) fuel1 fuel2) by lia. reflexivity.
Qed.

(** A text of the alphabet decodes unless one character is left over
    after the groups of four. *)
Lemma Decode_alphabet (s : string) :
  string_forall in_alphabet s = true ->
  forall (fuel : nat) (si : Z),
    (String.length s <= fuel)%nat ->
    if Nat.eqb (String.length s mod 4) 1
    then Decode fuel s si = inl (CorruptInputError (si + Z.of_nat (String.length s) - 1))
    else exists b, Decode fuel s si = inr b.
Proof.
  induction s as [ | c0 | c0 c1 | c0 c1 c2 | c0 c1 c2 c3 s IH ] using string_ind4;
    intros Hall fuel si Hfuel; cbn [string_forall] in Hall;
    repeat match type of Hall with
           | _ && _ = true => apply andb_true_iff in Hall as [? Hall]
           end.
  - cbn. exists []. destruct fuel; reflexivity.
  - destruct fuel as [ | fuel]; [ cbn in Hfuel; lia | ].
    cbn [String.length Nat.modulo Nat.eqb Decode].
    rewrite decodeQuantum_1 by assumption.
    change (Nat.eqb (1 mod 4) 1) with true. cbn iota.
    apply f_equal, f_equal. cbn. lia.
  - destruct fuel as [ | fuel]; [ cbn in Hfuel; lia | ].
    change (Nat.eqb (String.length (String c0 (String c1 "")) mod 4) 1) with false.
    cbn iota. cbn [Decode].
    rewrite decodeQuantum_2 by assumption.
    eexists. destruct fuel; reflexivity.
  - destruct fuel as [ | fuel]; [ cbn in Hfuel; lia | ].
    change (Nat.eqb (String.length (String c0 (String c1 (String c2 ""))) mod 4) 1) with false.
    cbn iota. cbn [Decode].
    rewrite decodeQuantum_3 by assumption.
    eexists. destruct fuel; reflexivity.
  - destruct fuel as [ | fuel]; [ cbn in Hfuel; lia | ].
    cbn [Decode].
    rewrite decodeQuantum_4 by assumption.
    specialize (IH Hall fuel (si + 4) ltac:(cbn in Hfuel; lia)).
    replace (String.length (String c0 (String c1 (String c2 (String c3 s)))))
      with (String.length s + 1 * 4)%nat by (cbn; lia).
    rewrite Nat.Div0.mod_add.
    destruct (Nat.eqb (String.length s mod 4) 1).
    + rewrite IH. apply f_equal, f_equal. cbn [String.length]. lia.
    + destruct IH as [b ->]. eexists. reflexivity.
Qed.

(** [encode x = c] for a character [c] of the alphabet whose value is [x]. *)
Ltac same_char :=
  match goal with
  | E : encode (decodeMap ?c) = ?c |- encode _ = ?c =>
      etransitivity; [ | exact E ]; f_equal; sextets_arith
  end.

(** Encoding what was decoded from a text of the alphabet whose unused
    bits are zero. *)
Lemma EncodeToString_Decode (s : string) :
  string_forall in_alphabet s = true -> Grammar.unused_bits s = 0 ->
  forall (fuel : nat) (si : Z) (b : bytes),
    (String.length s <= fuel)%nat ->
    Decode fuel s si = inr b -> EncodeToString b = s.
Proof.
  induction s as [ | c0 | c0 c1 | c0 c1 c2 | c0 c1 c2 c3 s IH ] using string_ind4;
    intros Hall Hbits fuel si b Hfuel Hdec; cbn [string_forall] in Hall;
    repeat match type of Hall with
           | _ && _ = true => apply andb_true_iff in Hall as [? Hall]
           end;
    repeat match goal with
           | H : in_alphabet ?c = true |- _ =>
               lazymatch goal with
               | _ : encode (decodeMap c) = c |- _ => fail
               | _ => destruct (in_alphabet_spec c H)
               end
           end.
  - destruct fuel; inversion Hdec; reflexivity.
  - destruct fuel as [ | fuel]; [ cbn in Hfuel; lia | ].
    cbn [Decode] in Hdec. rewrite decodeQuantum_1 in Hdec by assumption.
    discriminate.
  - destruct fuel as [ | fuel]; [ cbn in Hfuel; lia | ].
    cbn [Decode] in Hdec. rewrite decodeQuantum_2 in Hdec by assumption.
    rewrite quantum_bytes_2 in Hdec by assumption. cbv zeta in Hdec.
    rewrite Decode_nil in Hdec. inversion Hdec; subst b. cbn [app].
    rewrite EncodeToString_1. cbv zeta.
    rewrite Z_of_byte_of_Z. cbn [Grammar.unused_bits] in Hbits.
    f_equal; [ same_char | f_equal; same_char ].
  - destruct fuel as [ | fuel]; [ cbn in Hfuel; lia | ].
    cbn [Decode] in Hdec. rewrite decodeQuantum_3 in Hdec by assumption.
    rewrite quantum_bytes_3 in Hdec by assumption. cbv zeta in Hdec.
    cbn [Grammar.unused_bits] in Hbits.
    rewrite Decode_nil in Hdec. inversion Hdec; subst b. cbn [app].
    rewrite EncodeToString_2. cbv zeta.
    rewrite !Z_of_byte_of_Z.
    f_equal; [ same_char | f_equal; [ same_char | f_equal; same_char ] ].
  - destruct fuel as [ | fuel]; [ cbn in Hfuel; lia | ].
    cbn [Decode] in Hdec. rewrite decodeQuantum_4 in Hdec by assumption.
    rewrite quantum_bytes_4 in Hdec by assumption. cbv zeta in Hdec.
    cbn [Grammar.unused_bits] in Hbits.
    destruct (Decode fuel s (si + 4)) as [e | more] eqn:Hmore; [ discriminate | ].
    inversion Hdec; subst b. cbn [app].
    rewrite EncodeToString_3. cbv zeta.
    rewrite !Z_of_byte_of_Z.
    f_equal; [ same_char | f_equal; [ same_char | f_equal; [ same_char | f_equal; [ same_char | ] ] ] ].
    apply (IH Hall Hbits fuel (si + 4) more); [ cbn in Hfuel; lia | exact Hmore ].
Qed.

(** What the encoder writes has its unused bits zero. *)
Lemma EncodeToString_unused_bits (b : bytes) :
  Grammar.unused_bits (EncodeToString b) = 0.
Proof.
  induction b as [ | b0 | b0 b1 | b0 b1 b2 rest IH ] using list_ind3.
  - reflexivity.
  - pose proof (Z_of_byte_range b0).
    rewrite EncodeToString_1. cbv zeta. cbn [Grammar.unused_bits].
    rewrite decodeMap_encode by (apply sextet_range; lia). sextets_arith.
  - pose proof (Z_of_byte_range b0). pose proof (Z_of_byte_range b1).
    rewrite EncodeToString_2. cbv zeta. cbn [Grammar.unused_bits].
    rewrite decodeMap_encode by (apply sextet_range; lia). sextets_arith.
  - rewrite EncodeToString_3. cbv zeta. cbn [Grammar.unused_bits]. exact IH.
Qed.

End Base64Facts.

(** ** The matcher: lemmas *)

Module RegexpFacts.
Import Regexp RegexpSem.

Lemma strip_prefix_sound (p s rest : string) :
  strip_prefix p s = Some rest -> s = p ++ rest.
Proof.
  revert s. induction p as [ | a p IH]; intros [ | b s] H; cbn in H.
  - now inversion H.
  - now inversion H.
  - discriminate.
  - destruct (Ascii.eqb_spec a b) as [-> | ]; [ | discriminate ].
    cbn. f_equal. now apply IH.
Qed.

Lemma strip_prefix_app (p rest : string) : strip_prefix p (p ++ rest) = Some rest.
Proof.
  induction p as [ | a p IH]; cbn.
  - reflexivity.
  - now rewrite Ascii.eqb_refl.
Qed.

Lemma append_assoc (a b c : string) : ((a ++ b) ++ c)%string = (a ++ (b ++ c))%string.
Proof. induction a; cbn; congruence. Qed.

Lemma append_nil_r (a : string) : (a ++ "")%string = a.
Proof. induction a; cbn; congruence. Qed.

(** What a successful repetition took. *)
Lemma match_class_sound (cls : class) (k : string -> string -> option (list string)) :
  forall (s taken : string) (min : nat) (max : option nat) (r : list string),
    match_class cls min max taken s k = Some r ->
    exists run rest,
      s = (run ++ rest)%string
      /\ string_forall (class_matches cls) run = true
      /\ (min <= String.length run)%nat
      /\ (forall m, max = Some m -> (String.length run <= m)%nat)
      /\ k (taken ++ run)%string rest = Some r.
Proof.
  assert (Hstop : forall s taken min max r,
             (if Nat.eqb min 0 then k taken s else None) = Some r ->
             exists run rest,
               s = (run ++ rest)%string
               /\ string_forall (class_matches cls) run = true
               /\ (min <= String.length run)%nat
               /\ (forall m, max = Some m -> (String.length run <= m)%nat)
               /\ k (taken ++ run)%string rest = Some r).
  { intros s taken min max r H.
    destruct (Nat.eqb_spec min 0) as [-> | ]; [ | discriminate ].
    exists "", s. rewrite append_nil_r. cbn. repeat split; auto; intros; lia. }
  induction s as [ | c s IH]; intros taken min max r H.
  - cbn [match_class] in H. now apply Hstop.
  - cbn [match_class] in H.
    destruct (class_matches cls c && match max with Some O => false | _ => true end)
      eqn:Hc; [ | now apply Hstop ].
    apply andb_true_iff in Hc as [Hc Hmax].
    destruct (match_class cls (Nat.pred min) (option_map Nat.pred max)
                (taken ++ String c "") s k) as [r' | ] eqn:Hrec;
      [ | now apply Hstop ].
    inversion H; subst r'.
    apply IH in Hrec as (run & rest & -> & Hall & Hmin & Hbound & Hk).
    exists (String c run), rest. cbn. rewrite Hc, Hall.
    rewrite append_assoc in Hk. cbn in Hk.
    repeat split; auto; try lia.
    intros m ->. cbn in Hbound.
    destruct m as [ | m]; [ discriminate | ].
    specialize (Hbound m eq_refl). lia.
Qed.

(** A repetition that can take all the characters of its class that are
    there, and after which the rest of the pattern matches, does so. *)
Lemma match_class_max (cls : class) (k : string -> string -> option (list string)) :
  forall (run rest taken : string) (min : nat) (max : option nat) (r : list string),
    string_forall (class_matches cls) run = true ->
    (min <= String.length run)%nat ->
    (forall m, max = Some m -> (String.length run <= m)%nat) ->
    stops cls rest ->
    k (taken ++ run)%string rest = Some r ->
    match_class cls min max taken (run ++ rest)%string k = Some r.
Proof.
  induction run as [ | c run IH]; intros rest taken min max r Hall Hmin Hmax Hstop Hk.
  - cbn in Hmin. assert (min = 0%nat) as -> by lia.
    rewrite append_nil_r in Hk. cbn [append].
    destruct rest as [ | d rest]; cbn [match_class Nat.eqb]; [ assumption | ].
    cbn in Hstop. rewrite Hstop. cbn. assumption.
  - cbn in Hall. apply andb_true_iff in Hall as [Hc Hall].
    cbn [append match_class]. rewrite Hc.
    assert (Hm : match max with Some O => false | _ => true end = true).
    { destruct max as [ [ | m] | ]; auto. specialize (Hmax 0%nat eq_refl). cbn in Hmax. lia. }
    rewrite Hm. cbn [andb].
    rewrite (IH rest (taken ++ String c "")%string (Nat.pred min)
               (option_map Nat.pred max) r); auto.
    + cbn in Hmin. lia.
    + intros m Hmeq. destruct max as [ mx | ]; [ | discriminate ].
      cbn in Hmeq. inversion Hmeq; subst m.
      specialize (Hmax mx eq_refl). cbn in Hmax. lia.
    + rewrite append_assoc. exact Hk.
Qed.

Lemma match_items_sound (items : list item) :
  forall (s : string) (caps : list string),
    match_items items s = Some caps -> matches items s caps.
Proof.
  induction items as [ | [l | cls min max] items IH]; intros s caps H.
  - destruct s; inversion H. constructor.
  - cbn [match_items] in H.
    destruct (strip_prefix l s) as [rest | ] eqn:Hp; [ | discriminate ].
    apply strip_prefix_sound in Hp as ->.
    constructor. now apply IH.
  - cbn [match_items] in H.
    apply match_class_sound in H as (run & rest & -> & Hall & Hmin & Hmax & Hk).
    cbn [append] in Hk.
    destruct (match_items items rest) as [caps' | ] eqn:Hrest; [ | discriminate ].
    inversion Hk; subst caps.
    constructor; auto.
Qed.

Lemma match_items_max (items : list item) (s : string) (caps : list string) :
  matches_max items s caps -> match_items items s = Some caps.
Proof.
  induction 1 as [ | l items s caps _ IH | cls min max items run s caps Hall Hmin Hmax Hstop _ IH ].
  - reflexivity.
  - cbn [match_items]. now rewrite strip_prefix_app.
  - cbn [match_items].
    apply match_class_max; auto.
    cbn [append]. now rewrite IH.
Qed.

End RegexpFacts.

(** ** The pattern [rx] and the grammar *)

Module RxFacts.
Import Regexp RegexpSem RegexpFacts Grammar.

Lemma string_forall_ext (p q : ascii -> bool) (s : string) :
  (forall c, p c = q c) -> string_forall p s = string_forall q s.
Proof. intros H. induction s as [ | c s IH]; cbn; [ reflexivity | now rewrite H, IH ]. Qed.

Lemma digit_class (c : ascii) : class_matches digit c = is_digit c.
Proof. destruct c as [[] [] [] [] [] [] [] []]; reflexivity. Qed.

Lemma alnum_class (c : ascii) : class_matches alnum c = is_alphabet_char c.
Proof. destruct c as [[] [] [] [] [] [] [] []]; reflexivity. Qed.

Lemma alphabet_char_decodeMap (c : ascii) :
  is_alphabet_char c = in_alphabet c.
Proof. destruct c as [[] [] [] [] [] [] [] []]; reflexivity. Qed.

Lemma digits_class (lo hi : nat) (s : string) :
  digits lo hi s <->
  string_forall (class_matches digit) s = true
  /\ (lo <= String.length s)%nat /\ (String.length s <= hi)%nat.
Proof. unfold digits. now rewrite (string_forall_ext _ _ s digit_class). Qed.

Lemma segment_class (s : string) :
  segment s <->
  string_forall (class_matches alnum) s = true /\ (1 <= String.length s)%nat.
Proof. unfold segment. now rewrite (string_forall_ext _ _ s alnum_class). Qed.

(** The submatches of a text that [rx] matches are its fields. *)
Lemma rx_sound (t : string) (caps : list string) :
  match_items rx t = Some caps ->
  exists version time memory threads salt hash,
    caps = [version; time; memory; threads; salt; hash]
    /\ t = record_text version time memory threads salt hash
    /\ fields_ok version time memory threads salt hash.
Proof.
  intros H. apply match_items_sound in H. unfold rx in H.
  repeat match goal with
         | M : matches (_ :: _) _ _ |- _ => inversion M; subst; clear M
         | M : matches [] _ _ |- _ => inversion M; subst; clear M
         end.
  repeat match goal with
         | B : forall m, Some _ = Some m -> _ |- _ => specialize (B _ eq_refl)
         | B : forall m, None = Some m -> _ |- _ => clear B
         end.
  do 6 eexists. split; [ reflexivity | ]. split.
  - unfold record_text. now rewrite append_nil_r.
  - unfold fields_ok. rewrite !digits_class, !segment_class. tauto.
Qed.

(** A text of the grammar is matched by [rx], with its fields as
    submatches. *)
Lemma rx_complete (version time memory threads salt hash : string) :
  fields_ok version time memory threads salt hash ->
  match_items rx (record_text version time memory threads salt hash)
  = Some [version; time; memory; threads; salt; hash].
Proof.
  unfold fields_ok. rewrite !digits_class, !segment_class.
  intros ((V1 & V2 & V3) & (T1 & T2 & T3) & (M1 & M2 & M3) & (P1 & P2 & P3)
          & (S1 & S2) & (H1 & H2)).
  apply match_items_max. unfold rx, record_text.
  rewrite <- (append_nil_r hash) at 1.
  repeat first
    [ apply matches_max_end
    | apply matches_max_lit
    | apply matches_max_group;
      [ assumption | assumption
      | intros m Hm; first [ discriminate | now inversion Hm; subst ]
      | first [ exact I | reflexivity ] | ] ].
Qed.

End RxFacts.

(** ** strconv and fmt: lemmas *)

Module NumFacts.
Import Strconv Fmt Grammar RegexpFacts.

Lemma is_digit_range (c : ascii) : is_digit c = true -> 48 <= Z_of_byte c <= 57.
Proof.
  destruct c as [[] [] [] [] [] [] [] []]; intros H;
    try discriminate H; unfold Z_of_byte; cbn; lia.
Qed.

Lemma atoi_loop_digits (s : string) :
  forall n, string_forall is_digit s = true ->
            atoi_loop s n = (decimal_from s n, None).
Proof.
  induction s as [ | c s IH]; intros n H; cbn [atoi_loop decimal_from].
  - reflexivity.
  - cbn in H. apply andb_true_iff in H as [Hc Hs].
    apply is_digit_range in Hc.
    unfold uint8. change (2 ^ 8) with 256.
    rewrite Z.mod_small by lia.
    destruct (Z.gtb_spec (Z_of_byte c - 48) 9); [ lia | ].
    now apply IH.
Qed.

Lemma decimal_from_mono (s : string) :
  forall n, string_forall is_digit s = true -> 0 <= n -> n <= decimal_from s n.
Proof.
  induction s as [ | c s IH]; intros n H Hn; cbn [decimal_from].
  - lia.
  - cbn in H. apply andb_true_iff in H as [Hc Hs].
    apply is_digit_range in Hc.
    specialize (IH (n * 10 + (Z_of_byte c - 48)) Hs). lia.
Qed.

Lemma decimal_nonneg (s : string) : string_forall is_digit s = true -> 0 <= decimal s.
Proof. intros H. now apply (decimal_from_mono s 0). Qed.

Lemma atoi_fast_digits (s : string) :
  string_forall is_digit s = true -> (1 <= String.length s)%nat ->
  atoi_fast s = (decimal s, None).
Proof.
  intros H Hlen. destruct s as [ | c s]; [ cbn in Hlen; lia | ].
  pose proof (atoi_loop_digits (String c s) 0 H) as Hloop.
  cbn in H. apply andb_true_iff in H as [Hc _].
  unfold decimal. revert Hloop.
  destruct c as [[] [] [] [] [] [] [] []]; try discriminate Hc;
    unfold atoi_fast; intros ->; reflexivity.
Qed.

(** [Atoi] on what the groups of [rx] capture. *)
Lemma Atoi_digits (lo hi : nat) (s : string) :
  digits lo hi s -> (1 <= lo)%nat -> (hi <= 18)%nat ->
  Atoi s = (decimal s, None).
Proof.
  intros (H & Hlo & Hhi) L1 L2. unfold Atoi.
  replace (Nat.ltb 0 (String.length s)) with true
    by (symmetry; apply Nat.ltb_lt; lia).
  replace (Nat.ltb (String.length s) 19) with true
    by (symmetry; apply Nat.ltb_lt; lia).
  cbn [andb]. apply atoi_fast_digits; [ assumption | lia ].
Qed.

Lemma string_forall_app (p : ascii -> bool) (a b : string) :
  string_forall p (a ++ b) = string_forall p a && string_forall p b.
Proof.
  induction a as [ | c a IH]; cbn; [ reflexivity | ].
  now rewrite IH, andb_assoc.
Qed.

Lemma decimal_from_app (a b : string) (n : Z) :
  decimal_from (a ++ b) n = decimal_from b (decimal_from a n).
Proof. revert n. induction a as [ | c a IH]; intros n; cbn; [ reflexivity | apply IH ]. Qed.

Lemma length_app (a b : string) :
  String.length (a ++ b) = (String.length a + String.length b)%nat.
Proof. induction a as [ | c a IH]; cbn; [ reflexivity | now rewrite IH ]. Qed.

Lemma digit_char_spec (d : Z) :
  0 <= d <= 9 -> is_digit (digit_char d) = true /\ Z_of_byte (digit_char d) = 48 + d.
Proof.
  intros Hd.
  assert (H : d = 0 \/ d = 1 \/ d = 2 \/ d = 3 \/ d = 4 \/ d = 5 \/ d = 6
              \/ d = 7 \/ d = 8 \/ d = 9) by lia.
  repeat (destruct H as [-> | H]; [ split; reflexivity | ]).
  subst d. split; reflexivity.
Qed.

(** The digit loop writes, before [acc], the decimal digits of [u]:
    at least one, and no leading zero unless [u] is zero. *)
Lemma fmt_loop_spec (fuel : nat) :
  forall (u : Z) (acc : string),
    0 <= u < 2 ^ Z.of_nat fuel -> (1 <= fuel)%nat ->
    exists ds,
      fmt_loop fuel u acc = (ds ++ acc)%string
      /\ string_forall is_digit ds = true
      /\ (1 <= String.length ds)%nat
      /\ (forall n, decimal_from ds n = n * 10 ^ Z.of_nat (String.length ds) + u)
      /\ 10 ^ Z.of_nat (String.length ds - 1) <= Z.max u 1.
Proof.
  induction fuel as [ | fuel IH]; intros u acc Hu Hfuel; [ lia | ].
  cbn [fmt_loop].
  destruct (Z.geb_spec u 10) as [Hge | Hlt].
  - assert (Hpow : 2 ^ Z.of_nat (S fuel) = 2 * 2 ^ Z.of_nat fuel).
    { rewrite Nat2Z.inj_succ, Z.pow_succ_r by lia. reflexivity. }
    assert (Hf : (1 <= fuel)%nat).
    { destruct fuel; [ cbn in Hu; lia | lia ]. }
    assert (Hdiv : 0 <= u / 10 < 2 ^ Z.of_nat fuel).
    { split; [ apply Z.div_pos; lia | ].
      apply Z.div_lt_upper_bound; lia. }
    destruct (IH (u / 10) (String (digit_char (u mod 10)) acc) Hdiv Hf)
      as (ds & Heq & Hall & Hlen & Hval & Hlow).
    pose proof (Z.mod_pos_bound u 10 ltac:(lia)) as Hmod.
    destruct (digit_char_spec (u mod 10) ltac:(lia)) as [Hd Hdv].
    exists (ds ++ String (digit_char (u mod 10)) "")%string.
    rewrite append_assoc. cbn [append].
    split; [ exact Heq | ].
    rewrite string_forall_app, length_app. cbn [string_forall String.length].
    rewrite Hall, Hd. cbn [andb].
    split; [ reflexivity | ]. split; [ lia | ].
    replace (Z.of_nat (String.length ds + 1)) with (Z.succ (Z.of_nat (String.length ds))) by lia.
    replace (String.length ds + 1 - 1)%nat with (S (String.length ds - 1)) by lia.
    rewrite Nat2Z.inj_succ, !Z.pow_succ_r by lia.
    split.
    + intros n. rewrite decimal_from_app, Hval. cbn [decimal_from].
      rewrite Hdv. pose proof (Z.div_mod u 10 ltac:(lia)). lia.
    + pose proof (Z.div_mod u 10 ltac:(lia)). lia.
  - exists (String (digit_char u) "").
    destruct (digit_char_spec u ltac:(lia)) as [Hd Hdv].
    cbn [append string_forall String.length decimal_from].
    rewrite Hd. change (Z.of_nat 1) with 1. change (Z.of_nat (1 - 1)) with 0.
    split; [ reflexivity | ]. split; [ reflexivity | ]. split; [ lia | ].
    split; [ intros n; rewrite Hdv; lia | ].
    rewrite Z.pow_0_r. lia.
Qed.

Lemma FormatUint_spec (u : Z) :
  0 <= u ->
  string_forall is_digit (FormatUint u) = true
  /\ (1 <= String.length (FormatUint u))%nat
  /\ decimal (FormatUint u) = u
  /\ 10 ^ Z.of_nat (String.length (FormatUint u) - 1) <= Z.max u 1.
Proof.
  intros Hu. unfold FormatUint.
  assert (Hb : 0 <= u < 2 ^ Z.of_nat (S (Z.to_nat (Z.log2 u)))).
  { split; [ assumption | ].
    rewrite Nat2Z.inj_succ, Z2Nat.id by apply Z.log2_nonneg.
    destruct (Z.eq_dec u 0) as [-> | Hne]; [ reflexivity | ].
    apply Z.log2_spec. lia. }
  destruct (fmt_loop_spec _ u "" Hb ltac:(lia)) as (ds & Heq & Hall & Hlen & Hval & Hlow).
  rewrite Heq, append_nil_r.
  repeat split; auto.
  unfold decimal. rewrite Hval. lia.
Qed.

(** The digits of a value below [10 ^ k]. *)
Lemma FormatUint_digits (u : Z) (k : nat) :
  0 <= u < 10 ^ Z.of_nat k -> (1 <= k)%nat ->
  digits 1 k (FormatUint u) /\ decimal (FormatUint u) = u.
Proof.
  intros [Hu Hk] Hk1.
  destruct (FormatUint_spec u Hu) as (Hall & Hlen & Hval & Hlow).
  split; [ | assumption ].
  split; [ assumption | ]. split; [ assumption | ].
  destruct (Nat.le_gt_cases (String.length (FormatUint u)) k) as [ | Hgt];
    [ assumption | exfalso ].
  assert (10 ^ Z.of_nat k <= 10 ^ Z.of_nat (String.length (FormatUint u) - 1)).
  { apply Z.pow_le_mono_r; lia. }
  assert (1 < 10 ^ Z.of_nat k).
  { apply Z.pow_gt_1; lia. }
  lia.
Qed.

Lemma FormatInt_nonneg (n : Z) : 0 <= n -> FormatInt n = FormatUint n.
Proof.
  intros Hn. unfold FormatInt.
  destruct (Z.ltb_spec n 0); [ lia | reflexivity ].
Qed.

End NumFacts.

(** ** crypto/subtle: lemmas *)

Module SubtleFacts.
Import Subtle.

Lemma log2_byte (a : Z) : 0 <= a < 256 -> Z.log2 a < 8.
Proof.
  intros Ha. destruct (Z.eq_dec a 0) as [-> | Hne]; [ reflexivity | ].
  apply Z.log2_lt_pow2; lia.
Qed.

Lemma byte_of_log2 (a : Z) : 0 <= a -> Z.log2 a < 8 -> 0 <= a < 256.
Proof.
  intros Ha Hl. split; [ assumption | ].
  destruct (Z.eq_dec a 0) as [-> | Hne]; [ lia | ].
  change 256 with (2 ^ 8). apply Z.log2_lt_pow2; lia.
Qed.

Lemma lor_byte (a b : Z) : 0 <= a < 256 -> 0 <= b < 256 -> 0 <= Z.lor a b < 256.
Proof.
  intros Ha Hb. apply byte_of_log2.
  - apply Z.lor_nonneg; lia.
  - rewrite Z.log2_lor by lia.
    apply Z.max_lub_lt; now apply log2_byte.
Qed.

Lemma lxor_byte (a b : Z) : 0 <= a < 256 -> 0 <= b < 256 -> 0 <= Z.lxor a b < 256.
Proof.
  intros Ha Hb. apply byte_of_log2.
  - apply Z.lxor_nonneg; lia.
  - eapply Z.le_lt_trans; [ apply Z.log2_lxor; lia | ].
    apply Z.max_lub_lt; now apply log2_byte.
Qed.

Lemma Z_of_byte_inj (a b : byte) : Z_of_byte a = Z_of_byte b -> a = b.
Proof.
  intros H. rewrite <- (byte_of_Z_of_byte a), <- (byte_of_Z_of_byte b). now rewrite H.
Qed.

Lemma xor_fold_spec (x : bytes) :
  forall (y : bytes) (v : Z),
    List.length x = List.length y -> 0 <= v < 256 ->
    0 <= xor_fold x y v < 256 /\ (xor_fold x y v = 0 <-> v = 0 /\ x = y).
Proof.
  induction x as [ | a x IH]; intros [ | b y] v Hlen Hv; cbn in Hlen; try discriminate.
  - cbn. split; [ assumption | ]. tauto.
  - cbn [xor_fold].
    pose proof (lxor_byte _ _ (Z_of_byte_range a) (Z_of_byte_range b)) as Hx.
    pose proof (lor_byte _ _ Hv Hx) as Hl.
    destruct (IH y _ ltac:(lia) Hl) as [Hr Hiff].
    split; [ assumption | ].
    rewrite Hiff, Z.lor_eq_0_iff, Z.lxor_eq_0_iff.
    split.
    + intros [[Hv0 Hab] Hxy]. apply Z_of_byte_inj in Hab. now subst.
    + intros [Hv0 Heq]. inversion Heq. tauto.
Qed.

Lemma ConstantTimeByteEq_zero (v : Z) :
  0 <= v < 256 -> (ConstantTimeByteEq v 0 = 1 <-> v = 0).
Proof.
  intros Hv. unfold ConstantTimeByteEq, uint32.
  rewrite Z.lxor_0_r, Z.shiftr_div_pow2 by lia.
  rewrite (Z.mod_small v) by lia.
  change (2 ^ 32) with 4294967296. change (2 ^ 31) with 2147483648.
  split; intros H.
  - destruct (Z.eq_dec v 0); [ assumption | ].
    rewrite Z.mod_small in H by lia.
    rewrite Z.div_small in H by lia. discriminate.
  - subst v. reflexivity.
Qed.

(** [ConstantTimeCompare] decides equality. *)
Lemma ConstantTimeCompare_eq (x y : bytes) :
  ConstantTimeCompare x y = 1 <-> x = y.
Proof.
  unfold ConstantTimeCompare.
  destruct (Nat.eqb_spec (List.length x) (List.length y)) as [Hlen | Hlen]; cbn [negb].
  - destruct (xor_fold_spec x y 0 Hlen ltac:(lia)) as [Hr Hiff].
    rewrite ConstantTimeByteEq_zero by assumption.
    rewrite Hiff. tauto.
  - split; [ discriminate | ]. intros ->. contradiction.
Qed.

End SubtleFacts.

(** ** Parsing a record: lemmas *)

Module ParseFacts.
Import Grammar RxFacts NumFacts Base64Facts.

Lemma parse_no_match (t : string) :
  Regexp.match_items rx t = None ->
  newHashedFromHashedPassword t = inl ErrInvalidHash.
Proof.
  intros H. unfold newHashedFromHashedPassword, Regexp.FindStringSubmatch.
  now rewrite H.
Qed.

Lemma submatches_record (version time memory threads salt hash : string) :
  fields_ok version time memory threads salt hash ->
  Regexp.FindStringSubmatch rx (record_text version time memory threads salt hash)
  = Some [record_text version time memory threads salt hash;
          version; time; memory; threads; salt; hash].
Proof.
  intros H. unfold Regexp.FindStringSubmatch. now rewrite rx_complete.
Qed.

(** [newHashedFromHashedPassword] on a text of the grammar. *)
Lemma parse_record (version time memory threads salt hash : string) :
  fields_ok version time memory threads salt hash ->
  newHashedFromHashedPassword (record_text version time memory threads salt hash)
  = if negb (decimal version =? argon2_Version) then inl ErrInvalidArgon2Version
    else
      match Base64.DecodeString hash with
      | inl err => inl err
      | inr rawHash =>
          match Base64.DecodeString salt with
          | inl err => inl err
          | inr rawSalt =>
              if bad_complexity (decimal time) (decimal memory) (decimal threads)
              then inl ErrInvalidComplexity
              else inr (hashed.mk (uint32 (decimal time)) (uint32 (decimal memory))
                          (uint8 (decimal threads)) rawHash rawSalt)
          end
      end.
Proof.
  intros H. unfold newHashedFromHashedPassword.
  rewrite submatches_record by assumption.
  destruct H as (Hv & Ht & Hm & Hp & _ & _).
  cbn [nth].
  rewrite (Atoi_digits 1 4 version), (Atoi_digits 1 10 time),
    (Atoi_digits 1 10 memory), (Atoi_digits 1 3 threads) by (assumption || lia).
  reflexivity.
Qed.

Lemma match_cases (t : string) :
  Regexp.match_items rx t = None
  \/ exists version time memory threads salt hash,
       t = record_text version time memory threads salt hash
       /\ fields_ok version time memory threads salt hash.
Proof.
  destruct (Regexp.match_items rx t) as [caps | ] eqn:H; [ right | now left ].
  apply rx_sound in H as (v & tm & m & th & sa & ha & _ & Ht & Hok).
  now exists v, tm, m, th, sa, ha.
Qed.

Lemma segment_in_alphabet (s : string) :
  segment s -> string_forall in_alphabet s = true.
Proof.
  intros [H _]. now rewrite <- (string_forall_ext _ _ s alphabet_char_decodeMap).
Qed.

Lemma segment_EncodeToString (b : bytes) :
  (1 <= List.length b)%nat -> segment (Base64.EncodeToString b).
Proof.
  intros H. split.
  - rewrite (string_forall_ext _ _ _ alphabet_char_decodeMap).
    apply EncodeToString_alphabet.
  - now apply EncodeToString_length.
Qed.

Lemma DecodeString_EncodeToString (b : bytes) :
  Base64.DecodeString (Base64.EncodeToString b) = inr b.
Proof. unfold Base64.DecodeString. now apply Decode_EncodeToString. Qed.

Lemma generateSalt_ok (rd : Reader) :
  snd (rd saltLen) = None ->
  exists salt,
    generateSalt rd = inr salt /\ List.length salt = saltLen
    /\ (List.length (fst (rd saltLen)) = saltLen -> salt = fst (rd saltLen)).
Proof.
  intros H. unfold generateSalt, rand_Read.
  rewrite repeat_length.
  destruct (rd saltLen) as [written err]. cbn [fst snd] in *. subst err.
  eexists. split; [ reflexivity | ]. split.
  - rewrite List.length_firstn, List.length_app, List.length_skipn, repeat_length. lia.
  - intros Hfull.
    rewrite firstn_app, Hfull, Nat.sub_diag, firstn_O, app_nil_r.
    apply firstn_all2. lia.
Qed.

Lemma generateSalt_err (rd : Reader) (e : error) :
  snd (rd saltLen) = Some e -> generateSalt rd = inl e.
Proof.
  intros H. unfold generateSalt, rand_Read.
  rewrite repeat_length.
  destruct (rd saltLen) as [written err]. cbn in H. now subst err.
Qed.

Lemma Sprintf_record (v t m p : Z) (s h : string) :
  Fmt.Sprintf "$argon2id%d$%d,%d,%d$%s$%s"
    [ Fmt.ArgInt "int" v; Fmt.ArgInt "uint32" t; Fmt.ArgInt "uint32" m;
      Fmt.ArgInt "uint8" p; Fmt.ArgStr s; Fmt.ArgStr h ]
  = record_text (Fmt.FormatInt v) (Fmt.FormatInt t) (Fmt.FormatInt m)
      (Fmt.FormatInt p) s h.
Proof.
  unfold record_text.
  rewrite <- (RegexpFacts.append_nil_r h) at 2. reflexivity.
Qed.

Section WithIDKey.

Variable IDKey : bytes -> bytes -> Z -> Z -> Z -> Z -> bytes.

(** The text [HashPassword] formats. *)
Lemma HashPassword_text (rd : Reader) (password : string)
    (time memory threads keyLen : Z) (salt : bytes) :
  generateSalt rd = inr salt ->
  let time' := if time =? 0 then 1 else time in
  let memory' := if memory =? 0 then 65536 else memory in
  let threads' := if threads =? 0 then 4 else threads in
  let keyLen' := if keyLen =? 0 then 32 else keyLen in
  HashPassword IDKey rd password time memory threads keyLen
  = inr (record_text (Fmt.FormatInt argon2_Version) (Fmt.FormatInt time')
           (Fmt.FormatInt memory') (Fmt.FormatInt threads')
           (Base64.EncodeToString salt)
           (Base64.EncodeToString
              (IDKey (bytes_of_string password) salt time' memory' threads' keyLen'))).
Proof.
  intros Hsalt. cbv zeta. unfold HashPassword. rewrite Hsalt.
  now rewrite Sprintf_record.
Qed.

Lemma Compare_parsed (t password : string) (h : hashed.t) :
  newHashedFromHashedPassword t = inr h ->
  let derived :=
    IDKey (bytes_of_string password) (hashed.salt h) (hashed.time h)
      (hashed.memory h) (hashed.threads h)
      (uint32 (Z.of_nat (List.length (hashed.hash h)))) in
  Compare IDKey t password
  = if Subtle.ConstantTimeCompare (hashed.hash h) derived =? 1 then None
    else Some ErrMismatchedHashAndPassword.
Proof. intros H. unfold Compare. now rewrite H. Qed.

Lemma Compare_error (t password : string) (e : error) :
  newHashedFromHashedPassword t = inl e -> Compare IDKey t password = Some e.
Proof. intros H. unfold Compare. now rewrite H. Qed.

End WithIDKey.

End ParseFacts.

(** * The properties *)

Import Grammar.

(** Settles [fields_ok] for fields that are given. *)
Ltac concrete_fields :=
  unfold fields_ok, digits, segment; cbn [String.length];
  repeat split; solve [ reflexivity | lia ].

(** ** The alphabet codec *)

(** C6.  Decoding the encoding of any byte sequence [b] gives back
    exactly [b], for the unpadded codec over the alphabet
    [./A-Za-z0-9]. *)
Theorem decode_encode_roundtrip (b : bytes) :
  Base64.alphabet = "./ABCDEFGHIJKLMNOPQRSTUVWXYZabcdefghijklmnopqrstuvwxyz0123456789"
  /\ Base64.DecodeString (Base64.EncodeToString b) = inr b.
Proof.
  split; [ reflexivity | apply ParseFacts.DecodeString_EncodeToString ].
Qed.

(** C7, as stated, fails: the text [./] decodes without error, to the
    single byte 0, and that byte encodes to [..].  The decoder drops
    the low four bits of the second character without looking at
    them.  The salt [PWhquEXHn6p9NoOuQQVwHw] of the package's own tests
    is such a text: what it decodes to encodes with a last [u]. *)
Lemma encode_decode_not_identity :
  Base64.DecodeString "./" = inr ["000"%char]
  /\ Base64.EncodeToString ["000"%char] = ".."
  /\ (forall b, Base64.DecodeString "PWhquEXHn6p9NoOuQQVwHw" = inr b ->
      Base64.EncodeToString b = "PWhquEXHn6p9NoOuQQVwHu")
  /\ ~ (forall s b, Base64.DecodeString s = inr b -> Base64.EncodeToString b = s).
Proof.
  split; [ reflexivity | ]. split; [ reflexivity | ].
  split; [ intros b H; vm_compute in H; inversion H; reflexivity | ].
  intros H. specialize (H "./" ["000"%char] eq_refl). discriminate H.
Qed.

(** C7, amended.  For a text [s] that decodes without error, encoding
    the decoded bytes gives back [s] exactly when [s] holds only
    characters of the alphabet and the bits of its last character that
    stand for no bit of a byte are zero. *)
Theorem encode_decode_roundtrip (s : string) (b : bytes) :
  Base64.DecodeString s = inr b ->
  (Base64.EncodeToString b = s
   <-> string_forall is_alphabet_char s = true /\ unused_bits s = 0).
Proof.
  intros Hdec. split.
  - intros <-. split.
    + rewrite (RxFacts.string_forall_ext _ _ _ RxFacts.alphabet_char_decodeMap).
      apply Base64Facts.EncodeToString_alphabet.
    + apply Base64Facts.EncodeToString_unused_bits.
  - intros [Hall Hbits].
    rewrite (RxFacts.string_forall_ext _ _ _ RxFacts.alphabet_char_decodeMap) in Hall.
    unfold Base64.DecodeString in Hdec.
    eapply Base64Facts.EncodeToString_Decode; eauto.
Qed.

Lemma encode_decode_roundtrip_witness :
  Base64.DecodeString "YEDxY." = inr (bytes_of_string "hash")
  /\ (Base64.EncodeToString (bytes_of_string "hash") = "YEDxY."
      <-> string_forall is_alphabet_char "YEDxY." = true /\ unused_bits "YEDxY." = 0).
Proof.
  split; [ reflexivity | ].
  apply (encode_decode_roundtrip "YEDxY." (bytes_of_string "hash")). reflexivity.
Defined.

(** ** The structural check *)

(** C9.  [IsHashedPassword] answers [true] exactly on the texts of the
    grammar and [false] on all others; it answers [true] on texts that
    parsing rejects for their complexity values or for a segment that
    does not decode. *)
Theorem IsHashedPassword_iff_grammar (t : string) :
  (IsHashedPassword t = true <-> well_formed t)
  /\ (IsHashedPassword t = false <-> ~ well_formed t)
  /\ (IsHashedPassword "$argon2id19$0,65536,4$Oy7MSyjRTCTMTAzROSvSGO$QV5KGjrKZO6C" = true
      /\ newHashedFromHashedPassword "$argon2id19$0,65536,4$Oy7MSyjRTCTMTAzROSvSGO$QV5KGjrKZO6C"
         = inl ErrInvalidComplexity)
  /\ (IsHashedPassword "$argon2id19$1,65536,4$a$QV5KGjrKZO6C" = true
      /\ newHashedFromHashedPassword "$argon2id19$1,65536,4$a$QV5KGjrKZO6C"
         = inl (CorruptInputError 0)).
Proof.
  assert (Hiff : IsHashedPassword t = true <-> well_formed t).
  { unfold IsHashedPassword, Regexp.MatchString. split.
    - destruct (Regexp.match_items rx t) as [caps | ] eqn:H; [ intros _ | discriminate ].
      apply RxFacts.rx_sound in H as (v & tm & m & th & sa & ha & _ & Ht & Hok).
      now exists v, tm, m, th, sa, ha.
    - intros (v & tm & m & th & sa & ha & -> & Hok).
      now rewrite RxFacts.rx_complete. }
  split; [ exact Hiff | ]. split.
  - rewrite <- Hiff. destruct (IsHashedPassword t); split; congruence.
  - split; split; reflexivity.
Qed.

(** ** Parsing a record *)

(** C3, as stated, fails.  In a record with a foreign version and a
    salt that does not decode, the stated order reports the decode
    error of the salt, the source the version; in a record where
    neither segment decodes, the stated order reports the error of the
    salt, the source that of the hash. *)
Lemma stated_order_differs :
  (newHashedFromHashedPassword "$argon2id99$1,65536,4$a$J2fO7RdTPYGdoBb52cyYVEMd"
   = inl ErrInvalidArgon2Version
   /\ Checks.first_failure Checks.stated_order
        "$argon2id99$1,65536,4$a$J2fO7RdTPYGdoBb52cyYVEMd"
      = Some (CorruptInputError 0))
  /\ (newHashedFromHashedPassword "$argon2id19$1,65536,4$a$J2fO7"
      = inl (CorruptInputError 4)
      /\ Checks.first_failure Checks.stated_order "$argon2id19$1,65536,4$a$J2fO7"
         = Some (CorruptInputError 0)).
Proof. repeat split; reflexivity. Qed.

(** C3, amended.  For every text, parsing performs its checks in the
    order: grammar match, version check, hash decode, salt decode,
    complexity bounds; the first check that fails decides the error,
    and parsing succeeds when none fails. *)
Theorem parse_check_order (t : string) :
  match newHashedFromHashedPassword t with
  | inl e => Checks.first_failure Checks.source_order t = Some e
  | inr _ => Checks.first_failure Checks.source_order t = None
  end.
Proof.
  destruct (ParseFacts.match_cases t)
    as [Hno | (v & tm & m & th & sa & ha & -> & Hok)].
  - rewrite (ParseFacts.parse_no_match t Hno).
    unfold Checks.source_order, Checks.first_failure, Checks.run_check,
      Regexp.FindStringSubmatch.
    now rewrite Hno.
  - rewrite ParseFacts.parse_record by assumption.
    unfold Checks.source_order, Checks.first_failure, Checks.run_check.
    rewrite ParseFacts.submatches_record by assumption.
    cbn [nth]. unfold Checks.decode_error. fold (bad_complexity (decimal tm) (decimal m) (decimal th)).
    destruct (decimal v =? argon2_Version); cbn [negb]; [ | reflexivity ].
    destruct (Base64.DecodeString ha); [ reflexivity | ].
    destruct (Base64.DecodeString sa); [ reflexivity | ].
    destruct (bad_complexity _ _ _); reflexivity.
Qed.

(** C4.  For a record of the grammar with the compiled-in version whose
    salt and hash decode, parsing reports [ErrInvalidComplexity]
    exactly when time is 0 or above [2^32-1], memory is above [2^32-1],
    or threads is 0 or above 255; otherwise it succeeds with these
    values, a memory of 0 included. *)
Theorem complexity_bounds (version time memory threads salt hash : string)
    (rawSalt rawHash : bytes) :
  fields_ok version time memory threads salt hash ->
  decimal version = argon2_Version ->
  Base64.DecodeString salt = inr rawSalt ->
  Base64.DecodeString hash = inr rawHash ->
  let t := record_text version time memory threads salt hash in
  (newHashedFromHashedPassword t = inl ErrInvalidComplexity
   <-> decimal time = 0 \/ decimal time > 2 ^ 32 - 1 \/ decimal memory > 2 ^ 32 - 1
       \/ decimal threads = 0 \/ decimal threads > 255)
  /\ (1 <= decimal time <= 2 ^ 32 - 1 -> decimal memory <= 2 ^ 32 - 1 ->
      1 <= decimal threads <= 255 ->
      newHashedFromHashedPassword t
      = inr (hashed.mk (decimal time) (decimal memory) (decimal threads) rawHash rawSalt))
  /\ (decimal memory = 0 -> 1 <= decimal time <= 2 ^ 32 - 1 -> 1 <= decimal threads <= 255 ->
      newHashedFromHashedPassword t
      = inr (hashed.mk (decimal time) 0 (decimal threads) rawHash rawSalt)).
Proof.
  intros Hok Hv Hsalt Hhash t. subst t.
  rewrite ParseFacts.parse_record by assumption.
  rewrite Hv, Z.eqb_refl, Hhash, Hsalt. cbn [negb].
  destruct Hok as (_ & (Ht & _) & (Hm & _) & (Hp & _) & _).
  apply NumFacts.decimal_nonneg in Ht, Hm, Hp.
  unfold bad_complexity, MaxUint32, MaxUint8.
  change (2 ^ 32 - 1) with 4294967295. change (2 ^ 8 - 1) with 255.
  assert (Hgood : 1 <= decimal time <= 4294967295 -> decimal memory <= 4294967295 ->
                  1 <= decimal threads <= 255 ->
                  (if (decimal time =? 0) || (decimal time >? 4294967295)
                      || (decimal memory >? 4294967295)
                      || (decimal threads =? 0) || (decimal threads >? 255)
                   then inl ErrInvalidComplexity
                   else inr (hashed.mk (uint32 (decimal time)) (uint32 (decimal memory))
                               (uint8 (decimal threads)) rawHash rawSalt))
                  = inr (hashed.mk (decimal time) (decimal memory) (decimal threads)
                           rawHash rawSalt)).
  { intros H1 H2 H3.
    destruct (Z.eqb_spec (decimal time) 0); [ lia | ].
    destruct (Z.gtb_spec (decimal time) 4294967295); [ lia | ].
    destruct (Z.gtb_spec (decimal memory) 4294967295); [ lia | ].
    destruct (Z.eqb_spec (decimal threads) 0); [ lia | ].
    destruct (Z.gtb_spec (decimal threads) 255); [ lia | ].
    cbn [orb]. unfold uint32, uint8.
    change (2 ^ 32) with 4294967296. change (2 ^ 8) with 256.
    now rewrite !Z.mod_small by lia. }
  split; [ | split ].
  - destruct (Z.eqb_spec (decimal time) 0);
      [ cbn [orb]; split; [ intros _; lia | reflexivity ] | ].
    destruct (Z.gtb_spec (decimal time) 4294967295);
      [ cbn [orb]; split; [ intros _; lia | reflexivity ] | ].
    destruct (Z.gtb_spec (decimal memory) 4294967295);
      [ cbn [orb]; split; [ intros _; lia | reflexivity ] | ].
    destruct (Z.eqb_spec (decimal threads) 0);
      [ cbn [orb]; split; [ intros _; lia | reflexivity ] | ].
    destruct (Z.gtb_spec (decimal threads) 255);
      [ cbn [orb]; split; [ intros _; lia | reflexivity ] | ].
    cbn [orb]. split; [ discriminate | lia ].
  - exact Hgood.
  - intros H0 H1 H3. rewrite Hgood by lia. now rewrite H0.
Qed.

Lemma complexity_bounds_witness :
  newHashedFromHashedPassword "$argon2id19$1,0,4$WUHh$YEDxY."
  = inr (hashed.mk 1 0 4 (bytes_of_string "hash") (bytes_of_string "abc")).
Proof.
  assert (Hok : fields_ok "19" "1" "0" "4" "WUHh" "YEDxY.") by concrete_fields.
  destruct (complexity_bounds "19" "1" "0" "4" "WUHh" "YEDxY."
              (bytes_of_string "abc") (bytes_of_string "hash")
              Hok eq_refl eq_refl eq_refl) as (_ & _ & Hzero).
  apply Hzero; [ reflexivity | | ]; unfold decimal; cbn; lia.
Defined.

(** C5.  A record of the grammar whose version is not the compiled-in
    one is rejected with [ErrInvalidArgon2Version] by parsing and by
    [Compare], whatever its complexity values and whatever the
    derivation primitive, which is not consulted. *)
Theorem foreign_version_rejected
    (IDKey : bytes -> bytes -> Z -> Z -> Z -> Z -> bytes)
    (version time memory threads salt hash password : string) :
  fields_ok version time memory threads salt hash ->
  decimal version <> argon2_Version ->
  let t := record_text version time memory threads salt hash in
  newHashedFromHashedPassword t = inl ErrInvalidArgon2Version
  /\ Compare IDKey t password = Some ErrInvalidArgon2Version.
Proof.
  intros Hok Hv t. subst t.
  assert (Hparse : newHashedFromHashedPassword
                     (record_text version time memory threads salt hash)
                   = inl ErrInvalidArgon2Version).
  { rewrite ParseFacts.parse_record by assumption.
    destruct (Z.eqb_spec (decimal version) argon2_Version); [ contradiction | reflexivity ]. }
  split; [ exact Hparse | ].
  now apply ParseFacts.Compare_error.
Qed.

Lemma foreign_version_rejected_witness :
  newHashedFromHashedPassword
    "$argon2id99$1,65536,4$PWhquEXHn6p9NoOuQQVwHw$J2fO7RdTPYGdoBb52cyYVEMdprPkAa/2hny3n0tGNm4"
  = inl ErrInvalidArgon2Version
  /\ Compare Fixture.IDKey
       "$argon2id99$1,65536,4$PWhquEXHn6p9NoOuQQVwHw$J2fO7RdTPYGdoBb52cyYVEMdprPkAa/2hny3n0tGNm4"
       "test4"
     = Some ErrInvalidArgon2Version.
Proof.
  assert (Hok : fields_ok "99" "1" "65536" "4" "PWhquEXHn6p9NoOuQQVwHw"
                  "J2fO7RdTPYGdoBb52cyYVEMdprPkAa/2hny3n0tGNm4") by concrete_fields.
  assert (Hv : decimal "99" <> argon2_Version) by discriminate.
  destruct (foreign_version_rejected Fixture.IDKey "99" "1" "65536" "4"
              "PWhquEXHn6p9NoOuQQVwHw"
              "J2fO7RdTPYGdoBb52cyYVEMdprPkAa/2hny3n0tGNm4" "test4" Hok Hv)
    as (Hparse & Hcmp).
  split; [ exact Hparse | exact Hcmp ].
Defined.

(** ** Structurally valid is not parseable *)

(** C10, as stated, fails for records with a foreign version: the text
    below passes the structural check and its salt has length 1, yet
    [Compare] reports the version, not a decode error. *)
Lemma residual_length_not_always_decode_error :
  IsHashedPassword "$argon2id99$1,65536,4$a$J2fO7RdTPYGdoBb52cyYVEMd" = true
  /\ (String.length "a" mod 4 = 1)%nat
  /\ (forall IDKey password,
        Compare IDKey "$argon2id99$1,65536,4$a$J2fO7RdTPYGdoBb52cyYVEMd" password
        = Some ErrInvalidArgon2Version)
  /\ (forall pos, ErrInvalidArgon2Version <> CorruptInputError pos).
Proof.
  split; [ reflexivity | ]. split; [ reflexivity | ].
  split; [ intros; reflexivity | discriminate ].
Qed.

(** C10, amended.  Every record of the grammar with the compiled-in
    version whose salt or hash has a length congruent to 1 modulo 4
    passes the structural check, and [Compare] fails on it, for every
    password and every derivation primitive, with one and the same
    decode error, which is not [ErrInvalidHash]; such records exist. *)
Theorem residual_length_decode_error
    (version time memory threads salt hash : string) :
  fields_ok version time memory threads salt hash ->
  decimal version = argon2_Version ->
  (String.length salt mod 4 = 1 \/ String.length hash mod 4 = 1)%nat ->
  let t := record_text version time memory threads salt hash in
  IsHashedPassword t = true
  /\ exists pos,
       newHashedFromHashedPassword t = inl (CorruptInputError pos)
       /\ (forall IDKey password, Compare IDKey t password = Some (CorruptInputError pos))
       /\ CorruptInputError pos <> ErrInvalidHash.
Proof.
  intros Hok Hv Hlen t. subst t.
  split.
  { unfold IsHashedPassword, Regexp.MatchString. now rewrite RxFacts.rx_complete. }
  assert (Hparse : exists pos,
             newHashedFromHashedPassword
               (record_text version time memory threads salt hash)
             = inl (CorruptInputError pos)).
  { rewrite ParseFacts.parse_record by assumption.
    rewrite Hv, Z.eqb_refl. cbn [negb].
    destruct Hok as (_ & _ & _ & _ & Hs & Hh).
    apply ParseFacts.segment_in_alphabet in Hs, Hh.
    pose proof (Base64Facts.Decode_alphabet hash Hh (String.length hash) 0 (le_n _)) as Dh.
    pose proof (Base64Facts.Decode_alphabet salt Hs (String.length salt) 0 (le_n _)) as Ds.
    unfold Base64.DecodeString.
    destruct (Nat.eqb_spec (String.length hash mod 4) 1) as [Eh | Eh].
    - rewrite Dh. eexists; reflexivity.
    - destruct Dh as [rawHash ->].
      destruct (Nat.eqb_spec (String.length salt mod 4) 1) as [Es | Es].
      + rewrite Ds. eexists; reflexivity.
      + exfalso. destruct Hlen; contradiction. }
  destruct Hparse as [pos Hparse]. exists pos.
  split; [ exact Hparse | ]. split; [ | discriminate ].
  intros IDKey password. now apply ParseFacts.Compare_error.
Qed.

Lemma residual_length_decode_error_witness :
  IsHashedPassword "$argon2id19$1,65536,4$a$J2fO7RdTPYGdoBb52cyYVEMd" = true
  /\ exists pos,
       newHashedFromHashedPassword "$argon2id19$1,65536,4$a$J2fO7RdTPYGdoBb52cyYVEMd"
       = inl (CorruptInputError pos)
       /\ (forall IDKey password,
             Compare IDKey "$argon2id19$1,65536,4$a$J2fO7RdTPYGdoBb52cyYVEMd" password
             = Some (CorruptInputError pos))
       /\ CorruptInputError pos <> ErrInvalidHash.
Proof.
  assert (Hok : fields_ok "19" "1" "65536" "4" "a" "J2fO7RdTPYGdoBb52cyYVEMd")
    by concrete_fields.
  exact (residual_length_decode_error "19" "1" "65536" "4" "a"
           "J2fO7RdTPYGdoBb52cyYVEMd" Hok eq_refl (or_introl eq_refl)).
Defined.

(** ** Verification *)

(** C2.  When parsing fails, [Compare] returns the error of parsing.
    When it succeeds, [Compare] derives a key from the password and the
    parameters of the record, of the length of the embedded hash (as a
    [uint32], which is that length whenever it fits), succeeds if the
    derived bytes are the embedded hash and returns
    [ErrMismatchedHashAndPassword] if they are not. *)
Theorem Compare_spec (IDKey : bytes -> bytes -> Z -> Z -> Z -> Z -> bytes)
    (t password : string) :
  (forall e, newHashedFromHashedPassword t = inl e -> Compare IDKey t password = Some e)
  /\ (forall h, newHashedFromHashedPassword t = inr h ->
        let keyLen := uint32 (Z.of_nat (List.length (hashed.hash h))) in
        let derived :=
          IDKey (bytes_of_string password) (hashed.salt h) (hashed.time h)
            (hashed.memory h) (hashed.threads h) keyLen in
        (Z.of_nat (List.length (hashed.hash h)) <= MaxUint32 ->
         keyLen = Z.of_nat (List.length (hashed.hash h)))
        /\ (Compare IDKey t password = None <-> derived = hashed.hash h)
        /\ (derived <> hashed.hash h ->
            Compare IDKey t password = Some ErrMismatchedHashAndPassword)).
Proof.
  split.
  - intros e He. now apply ParseFacts.Compare_error.
  - intros h Hh keyLen derived.
    split.
    { intros Hfit. unfold keyLen, uint32. unfold MaxUint32 in Hfit.
      apply Z.mod_small. lia. }
    rewrite (ParseFacts.Compare_parsed IDKey t password h Hh). cbv zeta.
    fold keyLen. fold derived.
    pose proof (SubtleFacts.ConstantTimeCompare_eq (hashed.hash h) derived) as Heq.
    destruct (Z.eqb_spec (Subtle.ConstantTimeCompare (hashed.hash h) derived) 1) as [E | E].
    + apply Heq in E. split; [ split; congruence | congruence ].
    + split; [ split; [ discriminate | ] | reflexivity ].
      intros Hd. exfalso. apply E, Heq. congruence.
Qed.

Lemma Compare_spec_witness :
  Compare Fixture.IDKey "$argon2id19$1,65536,4$WUHh$/uaF/u" "test" = None
  /\ Compare Fixture.IDKey "$argon2id19$1,65536,4$WUHh$/uaF/u" "bad-password"
     = Some ErrMismatchedHashAndPassword
  /\ Compare Fixture.IDKey "bad-hash" "test4" = Some ErrInvalidHash.
Proof.
  pose (h := hashed.mk 1 65536 4
               (repeat (byte_of_Z 7) 4) (bytes_of_string "abc")).
  assert (Hparse : newHashedFromHashedPassword "$argon2id19$1,65536,4$WUHh$/uaF/u"
                   = inr h) by reflexivity.
  destruct (Compare_spec Fixture.IDKey "$argon2id19$1,65536,4$WUHh$/uaF/u" "test")
    as [_ Hgood].
  destruct (Compare_spec Fixture.IDKey "$argon2id19$1,65536,4$WUHh$/uaF/u" "bad-password")
    as [_ Hbad].
  destruct (Compare_spec Fixture.IDKey "bad-hash" "test4") as [Herr _].
  destruct (Hgood h Hparse) as (_ & Hiff & _).
  destruct (Hbad h Hparse) as (_ & _ & Hne).
  split; [ apply Hiff; reflexivity | ].
  split; [ apply Hne; discriminate | ].
  apply Herr. reflexivity.
Defined.

(** ** Hashing *)

(** C8.  [HashPassword] replaces a zero time by 1, a zero memory by
    65536, zero threads by 4 and a zero key length by 32.  When the
    randomness source reports an error, that error is returned; when it
    does not, the salt has 16 bytes, those the source wrote, and the
    text is [$argon2id19$<time>,<memory>,<threads>$<salt>$<hash>] with
    the decimal digits of the parameters after defaults and the
    encodings of the salt and of the key derived with them.
    [DefaultHashPassword] is [HashPassword] with four zeros. *)
Theorem HashPassword_spec (IDKey : bytes -> bytes -> Z -> Z -> Z -> Z -> bytes)
    (rd : Reader) (password : string) (time memory threads keyLen : Z) :
  0 <= time -> 0 <= memory -> 0 <= threads -> 0 <= keyLen ->
  let time' := if time =? 0 then 1 else time in
  let memory' := if memory =? 0 then 65536 else memory in
  let threads' := if threads =? 0 then 4 else threads in
  let keyLen' := if keyLen =? 0 then 32 else keyLen in
  (forall e, snd (rd 16%nat) = Some e ->
     HashPassword IDKey rd password time memory threads keyLen = inl e)
  /\ (snd (rd 16%nat) = None ->
      exists salt tt mt pt,
        List.length salt = 16%nat
        /\ (List.length (fst (rd 16%nat)) = 16%nat -> salt = fst (rd 16%nat))
        /\ string_forall is_digit tt = true /\ decimal tt = time'
        /\ string_forall is_digit mt = true /\ decimal mt = memory'
        /\ string_forall is_digit pt = true /\ decimal pt = threads'
        /\ HashPassword IDKey rd password time memory threads keyLen
           = inr (record_text "19" tt mt pt (Base64.EncodeToString salt)
                    (Base64.EncodeToString
                       (IDKey (bytes_of_string password) salt
                          time' memory' threads' keyLen'))))
  /\ DefaultHashPassword IDKey rd password = HashPassword IDKey rd password 0 0 0 0.
Proof.
  intros Ht Hm Hp Hk time' memory' threads' keyLen'.
  split; [ | split; [ | reflexivity ] ].
  - intros e He. unfold HashPassword.
    now rewrite (ParseFacts.generateSalt_err rd e He).
  - intros Hnil.
    destruct (ParseFacts.generateSalt_ok rd Hnil) as (salt & Hsalt & Hlen & Hfrom).
    assert (Ht' : 0 <= time') by (subst time'; destruct (time =? 0); lia).
    assert (Hm' : 0 <= memory') by (subst memory'; destruct (memory =? 0); lia).
    assert (Hp' : 0 <= threads') by (subst threads'; destruct (threads =? 0); lia).
    destruct (NumFacts.FormatUint_spec time' Ht') as (Dt & _ & Vt & _).
    destruct (NumFacts.FormatUint_spec memory' Hm') as (Dm & _ & Vm & _).
    destruct (NumFacts.FormatUint_spec threads' Hp') as (Dp & _ & Vp & _).
    exists salt, (Fmt.FormatUint time'), (Fmt.FormatUint memory'), (Fmt.FormatUint threads').
    split; [ exact Hlen | ]. split; [ exact Hfrom | ].
    split; [ exact Dt | ]. split; [ exact Vt | ].
    split; [ exact Dm | ]. split; [ exact Vm | ].
    split; [ exact Dp | ]. split; [ exact Vp | ].
    rewrite (ParseFacts.HashPassword_text IDKey rd password _ _ _ _ salt Hsalt).
    cbv zeta. fold time' memory' threads' keyLen'.
    rewrite !NumFacts.FormatInt_nonneg by (assumption || (unfold argon2_Version; lia)).
    reflexivity.
Qed.

Lemma HashPassword_spec_witness :
  HashPassword Fixture.IDKey Fixture.short_reader "test" 0 0 0 0
  = inl (ReaderError "unexpected EOF")
  /\ HashPassword Fixture.IDKey Fixture.full_reader "test2" 2 32768 2 17
     = inr "$argon2id19$2,32768,2$WUDfWUDfWUDfWUDfWUDfWO$DPSTDPSTDPSTDPSTDPSTDPS"
  /\ DefaultHashPassword Fixture.IDKey Fixture.full_reader "test"
     = HashPassword Fixture.IDKey Fixture.full_reader "test" 0 0 0 0.
Proof.
  destruct (HashPassword_spec Fixture.IDKey Fixture.short_reader "test" 0 0 0 0)
    as (Herr & _ & _); try lia.
  destruct (HashPassword_spec Fixture.IDKey Fixture.full_reader "test" 0 0 0 0)
    as (_ & _ & Hdefault); try lia.
  split; [ apply Herr; reflexivity | ].
  split; [ reflexivity | exact Hdefault ].
Defined.

(** C1.  With a derivation primitive that is a function of its inputs
    and returns as many bytes as asked, and cost parameters within
    their types: whenever the randomness source supplies the salt,
    [HashPassword] returns a text on which [Compare] with the same
    password succeeds. *)
Theorem hash_then_compare (IDKey : bytes -> bytes -> Z -> Z -> Z -> Z -> bytes)
    (rd : Reader) (password : string) (time memory threads keyLen : Z) :
  (forall pw salt t m p kl, List.length (IDKey pw salt t m p kl) = Z.to_nat kl) ->
  0 <= time <= MaxUint32 -> 0 <= memory <= MaxUint32 ->
  0 <= threads <= MaxUint8 -> 0 <= keyLen <= MaxUint32 ->
  snd (rd saltLen) = None ->
  exists t,
    HashPassword IDKey rd password time memory threads keyLen = inr t
    /\ Compare IDKey t password = None.
Proof.
  unfold MaxUint32, MaxUint8.
  change (2 ^ 32 - 1) with 4294967295. change (2 ^ 8 - 1) with 255.
  intros HIDKey Ht Hm Hp Hk Hnil.
  destruct (ParseFacts.generateSalt_ok rd Hnil) as (salt & Hsalt & Hlen & _).
  rewrite (ParseFacts.HashPassword_text IDKey rd password _ _ _ _ salt Hsalt).
  cbv zeta.
  set (time' := if time =? 0 then 1 else time).
  set (memory' := if memory =? 0 then 65536 else memory).
  set (threads' := if threads =? 0 then 4 else threads).
  set (keyLen' := if keyLen =? 0 then 32 else keyLen).
  assert (Ht' : 1 <= time' <= 4294967295)
    by (subst time'; destruct (Z.eqb_spec time 0); lia).
  assert (Hm' : 1 <= memory' <= 4294967295)
    by (subst memory'; destruct (Z.eqb_spec memory 0); lia).
  assert (Hp' : 1 <= threads' <= 255)
    by (subst threads'; destruct (Z.eqb_spec threads 0); lia).
  assert (Hk' : 1 <= keyLen' <= 4294967295)
    by (subst keyLen'; destruct (Z.eqb_spec keyLen 0); lia).
  set (hash := IDKey (bytes_of_string password) salt time' memory' threads' keyLen').
  assert (Hhash : List.length hash = Z.to_nat keyLen') by apply HIDKey.
  rewrite !NumFacts.FormatInt_nonneg by (unfold argon2_Version; lia).
  change (Fmt.FormatUint argon2_Version) with "19".
  destruct (NumFacts.FormatUint_digits time' 10) as [Dt Vt]; [ lia | lia | ].
  destruct (NumFacts.FormatUint_digits memory' 10) as [Dm Vm]; [ lia | lia | ].
  destruct (NumFacts.FormatUint_digits threads' 3) as [Dp Vp]; [ lia | lia | ].
  assert (Hok : fields_ok "19" (Fmt.FormatUint time') (Fmt.FormatUint memory')
                  (Fmt.FormatUint threads') (Base64.EncodeToString salt)
                  (Base64.EncodeToString hash)).
  { split; [ concrete_fields | ].
    repeat (split; [ assumption | ]).
    split; apply ParseFacts.segment_EncodeToString; unfold saltLen in *; lia. }
  eexists. split; [ reflexivity | ].
  assert (Hparse : newHashedFromHashedPassword
                     (record_text "19" (Fmt.FormatUint time') (Fmt.FormatUint memory')
                        (Fmt.FormatUint threads') (Base64.EncodeToString salt)
                        (Base64.EncodeToString hash))
                   = inr (hashed.mk time' memory' threads' hash salt)).
  { rewrite ParseFacts.parse_record by assumption.
    change (decimal "19" =? argon2_Version) with true. cbn [negb].
    rewrite !ParseFacts.DecodeString_EncodeToString, Vt, Vm, Vp.
    unfold bad_complexity, MaxUint32, MaxUint8.
    change (2 ^ 32 - 1) with 4294967295. change (2 ^ 8 - 1) with 255.
    destruct (Z.eqb_spec time' 0); [ lia | ].
    destruct (Z.gtb_spec time' 4294967295); [ lia | ].
    destruct (Z.gtb_spec memory' 4294967295); [ lia | ].
    destruct (Z.eqb_spec threads' 0); [ lia | ].
    destruct (Z.gtb_spec threads' 255); [ lia | ].
    cbn [orb]. unfold uint32, uint8.
    change (2 ^ 32) with 4294967296. change (2 ^ 8) with 256.
    now rewrite !Z.mod_small by lia. }
  rewrite (ParseFacts.Compare_parsed IDKey _ password _ Hparse).
  cbv zeta. cbn [hashed.hash hashed.salt hashed.time hashed.memory hashed.threads].
  rewrite Hhash, Z2Nat.id by lia.
  unfold uint32 at 1. change (2 ^ 32) with 4294967296.
  rewrite Z.mod_small by lia. fold hash.
  now rewrite (proj2 (SubtleFacts.ConstantTimeCompare_eq hash hash) eq_refl).
Qed.

Lemma hash_then_compare_witness :
  exists t,
    HashPassword Fixture.IDKey Fixture.full_reader "test2" 2 32768 2 17 = inr t
    /\ Compare Fixture.IDKey t "test2" = None.
Proof.
  apply hash_then_compare.
  - intros. unfold Fixture.IDKey. apply repeat_length.
  - unfold MaxUint32. lia.
  - unfold MaxUint32. lia.
  - unfold MaxUint8. lia.
  - unfold MaxUint32. lia.
  - reflexivity.
Defined.

(** * Further properties *)

(** ** Hashing, then parsing: lemmas *)

Module HashFacts.
Import Base64Facts.

Lemma or_default_range (x d hi : Z) :
  0 <= x <= hi -> 1 <= d <= hi -> 1 <= or_default x d <= hi.
Proof.
  intros Hx Hd. unfold or_default. destruct (Z.eqb_spec x 0); lia.
Qed.



Lemma uint32_small (z : Z) : 0 <= z <= MaxUint32 -> uint32 z = z.
Proof. unfold uint32, MaxUint32. intros H. apply Z.mod_small. lia. Qed.

Lemma uint8_small (z : Z) : 0 <= z <= MaxUint8 -> uint8 z = z.
Proof. unfold uint8, MaxUint8. intros H. apply Z.mod_small. lia. Qed.

Lemma bad_complexity_false (time memory threads : Z) :
  0 <= time -> 0 <= threads ->
  (bad_complexity time memory threads = false
   <-> 1 <= time <= MaxUint32 /\ memory <= MaxUint32 /\ 1 <= threads <= MaxUint8).
Proof.
  intros Ht Hp. unfold bad_complexity.
  destruct (Z.eqb_spec time 0) as [E1 | E1], (Z.gtb_spec time MaxUint32) as [E2 | E2],
    (Z.gtb_spec memory MaxUint32) as [E3 | E3], (Z.eqb_spec threads 0) as [E4 | E4],
    (Z.gtb_spec threads MaxUint8) as [E5 | E5]; cbn [orb];
    unfold MaxUint32, MaxUint8 in *;
    (split; [ intros Hb; first [ discriminate Hb | lia ] | intros Hb; first [ reflexivity | lia ] ]).
Qed.

Section WithIDKey.

Variable IDKey : bytes -> bytes -> Z -> Z -> Z -> Z -> bytes.

Hypothesis IDKey_length :
  forall pw salt t m p kl, List.length (IDKey pw salt t m p kl) = Z.to_nat kl.

(** What [HashPassword] writes with the salt [salt], and what parsing
    reads back from it. *)
Lemma HashPassword_record (rd : Reader) (password : string)
    (time memory threads keyLen : Z) (salt : bytes) :
  0 <= time <= MaxUint32 -> 0 <= memory <= MaxUint32 ->
  0 <= threads <= MaxUint8 -> 0 <= keyLen <= MaxUint32 ->
  generateSalt rd = inr salt -> List.length salt = saltLen ->
  let time' := or_default time 1 in
  let memory' := or_default memory 65536 in
  let threads' := or_default threads 4 in
  let keyLen' := or_default keyLen 32 in
  let hash := IDKey (bytes_of_string password) salt time' memory' threads' keyLen' in
  let t := record_text "19" (Fmt.FormatUint time') (Fmt.FormatUint memory')
             (Fmt.FormatUint threads') (Base64.EncodeToString salt)
             (Base64.EncodeToString hash) in
  HashPassword IDKey rd password time memory threads keyLen = inr t
  /\ fields_ok "19" (Fmt.FormatUint time') (Fmt.FormatUint memory')
       (Fmt.FormatUint threads') (Base64.EncodeToString salt)
       (Base64.EncodeToString hash)
  /\ newHashedFromHashedPassword t = inr (hashed.mk time' memory' threads' hash salt)
  /\ List.length hash = Z.to_nat keyLen' /\ 1 <= keyLen' <= MaxUint32.
Proof.
  intros Ht Hm Hp Hk Hsalt Hlen time' memory' threads' keyLen' hash t.
  assert (Ht' : 1 <= time' <= MaxUint32)
    by (apply or_default_range; unfold MaxUint32 in *; lia).
  assert (Hm' : 1 <= memory' <= MaxUint32)
    by (apply or_default_range; unfold MaxUint32 in *; lia).
  assert (Hp' : 1 <= threads' <= MaxUint8)
    by (apply or_default_range; unfold MaxUint8 in *; lia).
  assert (Hk' : 1 <= keyLen' <= MaxUint32)
    by (apply or_default_range; unfold MaxUint32 in *; lia).
  assert (Hhash : List.length hash = Z.to_nat keyLen') by apply IDKey_length.
  destruct (NumFacts.FormatUint_digits time' 10) as [Dt Vt];
    [ unfold MaxUint32 in Ht'; lia | lia | ].
  destruct (NumFacts.FormatUint_digits memory' 10) as [Dm Vm];
    [ unfold MaxUint32 in Hm'; lia | lia | ].
  destruct (NumFacts.FormatUint_digits threads' 3) as [Dp Vp];
    [ unfold MaxUint8 in Hp'; lia | lia | ].
  assert (Hok : fields_ok "19" (Fmt.FormatUint time') (Fmt.FormatUint memory')
                  (Fmt.FormatUint threads') (Base64.EncodeToString salt)
                  (Base64.EncodeToString hash)).
  { split; [ concrete_fields | ].
    repeat (split; [ assumption | ]).
    split; apply ParseFacts.segment_EncodeToString; unfold saltLen in *; lia. }
  split; [ | split; [ exact Hok | split; [ | split; assumption ] ] ].
  - rewrite (ParseFacts.HashPassword_text IDKey rd password _ _ _ _ salt Hsalt).
    cbv zeta.
    rewrite !NumFacts.FormatInt_nonneg
      by (unfold argon2_Version, MaxUint32, MaxUint8 in *;
          repeat match goal with |- context [ if ?x =? 0 then _ else _ ] =>
                   destruct (Z.eqb_spec x 0) end; lia).
    reflexivity.
  - subst t. rewrite ParseFacts.parse_record by assumption.
    change (decimal "19" =? argon2_Version) with true. cbn [negb].
    rewrite !ParseFacts.DecodeString_EncodeToString, Vt, Vm, Vp.
    replace (bad_complexity time' memory' threads') with false
      by (symmetry; apply bad_complexity_false; lia).
    now rewrite !uint32_small, uint8_small by lia.
Qed.

End WithIDKey.

End HashFacts.

(** ** Lengths and texts: lemmas *)

Module TextFacts.
Import Base64 Base64Facts.

Lemma EncodeToString_length_eq (b : bytes) :
  String.length (EncodeToString b) = ((4 * List.length b + 2) / 3)%nat.
Proof.
  induction b as [ | b0 | b0 b1 | b0 b1 b2 rest IH ] using list_ind3;
    try reflexivity.
  rewrite EncodeToString_3. cbv zeta. cbn [String.length List.length].
  rewrite IH.
  replace (4 * S (S (S (List.length rest))) + 2)%nat
    with (4 * List.length rest + 2 + 4 * 3)%nat by lia.
  rewrite Nat.div_add by lia. lia.
Qed.

Lemma Decode_length (s : string) :
  string_forall in_alphabet s = true ->
  forall (fuel : nat) (si : Z) (b : bytes),
    (String.length s <= fuel)%nat ->
    Decode fuel s si = inr b ->
    List.length b = (3 * String.length s / 4)%nat.
Proof.
  induction s as [ | c0 | c0 c1 | c0 c1 c2 | c0 c1 c2 c3 s IH ] using string_ind4;
    intros Hall fuel si b Hfuel Hdec; cbn [string_forall] in Hall;
    repeat match type of Hall with
           | _ && _ = true => apply andb_true_iff in Hall as [? Hall]
           end.
  - rewrite Decode_nil in Hdec. now inversion Hdec.
  - destruct fuel as [ | fuel]; [ cbn in Hfuel; lia | ].
    cbn [Decode] in Hdec. rewrite decodeQuantum_1 in Hdec by assumption.
    discriminate.
  - destruct fuel as [ | fuel]; [ cbn in Hfuel; lia | ].
    cbn [Decode] in Hdec. rewrite decodeQuantum_2, Decode_nil in Hdec by assumption.
    inversion Hdec. reflexivity.
  - destruct fuel as [ | fuel]; [ cbn in Hfuel; lia | ].
    cbn [Decode] in Hdec. rewrite decodeQuantum_3, Decode_nil in Hdec by assumption.
    inversion Hdec. reflexivity.
  - destruct fuel as [ | fuel]; [ cbn in Hfuel; lia | ].
    cbn [Decode] in Hdec. rewrite decodeQuantum_4 in Hdec by assumption.
    destruct (Decode fuel s (si + 4)) as [e | more] eqn:Hmore; [ discriminate | ].
    assert (Hb : forall x y : bytes,
               @inr error bytes x = inr y -> List.length y = List.length x)
      by (intros x y E; now inversion E).
    apply Hb in Hdec. rewrite Hdec. clear Hb Hdec.
    assert (Hq : forall d0 d1 d2 d3,
               List.length (quantum_bytes [d0; d1; d2; d3]) = 3%nat) by reflexivity.
    rewrite List.length_app, Hq.
    rewrite (IH Hall fuel (si + 4) more) by (cbn in Hfuel; lia || assumption).
    cbn [String.length].
    replace (3 * S (S (S (S (String.length s)))))%nat
      with (3 * String.length s + 3 * 4)%nat by lia.
    rewrite Nat.div_add by lia. lia.
Qed.

Lemma EncodeToString_inj (a b : bytes) :
  EncodeToString a = EncodeToString b -> a = b.
Proof.
  intros H.
  pose proof (ParseFacts.DecodeString_EncodeToString a) as Ha.
  rewrite H, ParseFacts.DecodeString_EncodeToString in Ha. now inversion Ha.
Qed.

Lemma append_inv_head (p a b : string) : (p ++ a)%string = (p ++ b)%string -> a = b.
Proof. induction p as [ | c p IH]; cbn; intros H; [ assumption | inversion H; auto ]. Qed.

Lemma append_inv_same_length (a b x y : string) :
  (a ++ x)%string = (b ++ y)%string -> String.length a = String.length b ->
  a = b /\ x = y.
Proof.
  revert b. induction a as [ | c a IH]; intros [ | d b] H Hlen; cbn in Hlen;
    try discriminate.
  - now split.
  - cbn in H. inversion H; subst d.
    destruct (IH b) as [-> ->]; auto.
Qed.

Lemma generateSalt_inr (rd : Reader) (salt : bytes) :
  generateSalt rd = inr salt -> snd (rd saltLen) = None.
Proof.
  unfold generateSalt, rand_Read. rewrite repeat_length.
  destruct (rd saltLen) as [written [err | ]]; [ discriminate | reflexivity ].
Qed.

Lemma generateSalt_length (rd : Reader) (salt : bytes) :
  generateSalt rd = inr salt -> List.length salt = saltLen.
Proof.
  intros H.
  destruct (ParseFacts.generateSalt_ok rd (generateSalt_inr rd salt H))
    as (salt' & Hs & Hlen & _).
  congruence.
Qed.

(** What a successful parse was of. *)
Lemma parse_inr (t : string) (h : hashed.t) :
  newHashedFromHashedPassword t = inr h ->
  exists version time memory threads salt hash,
    t = record_text version time memory threads salt hash
    /\ fields_ok version time memory threads salt hash
    /\ decimal version = argon2_Version
    /\ Base64.DecodeString hash = inr (hashed.hash h)
    /\ Base64.DecodeString salt = inr (hashed.salt h)
    /\ bad_complexity (decimal time) (decimal memory) (decimal threads) = false
    /\ hashed.time h = uint32 (decimal time)
    /\ hashed.memory h = uint32 (decimal memory)
    /\ hashed.threads h = uint8 (decimal threads).
Proof.
  intros H.
  destruct (ParseFacts.match_cases t)
    as [Hno | (v & tm & m & th & sa & ha & -> & Hok)].
  - rewrite (ParseFacts.parse_no_match t Hno) in H. discriminate.
  - rewrite ParseFacts.parse_record in H by assumption.
    exists v, tm, m, th, sa, ha.
    destruct (Z.eqb_spec (decimal v) argon2_Version) as [Ev | Ev];
      cbn [negb] in H; [ | discriminate ].
    destruct (Base64.DecodeString ha) as [e | rawHash]; [ discriminate | ].
    destruct (Base64.DecodeString sa) as [e | rawSalt]; [ discriminate | ].
    destruct (bad_complexity (decimal tm) (decimal m) (decimal th)) eqn:Hbad;
      [ discriminate | ].
    injection H as <-.
    cbn [hashed.hash hashed.salt hashed.time hashed.memory hashed.threads].
    repeat (split; [ first [ reflexivity | assumption ] | ]). reflexivity.
Qed.

(** The errors of parsing a text of the grammar. *)
Lemma parse_inl (t : string) (e : error) :
  newHashedFromHashedPassword t = inl e ->
  (IsHashedPassword t = false /\ e = ErrInvalidHash)
  \/ exists version time memory threads salt hash,
       t = record_text version time memory threads salt hash
       /\ fields_ok version time memory threads salt hash
       /\ ((decimal version <> argon2_Version /\ e = ErrInvalidArgon2Version)
           \/ (decimal version = argon2_Version
               /\ Base64.DecodeString hash = inl e)
           \/ (decimal version = argon2_Version
               /\ (exists rawHash, Base64.DecodeString hash = inr rawHash)
               /\ Base64.DecodeString salt = inl e)
           \/ (decimal version = argon2_Version
               /\ (exists rawHash, Base64.DecodeString hash = inr rawHash)
               /\ (exists rawSalt, Base64.DecodeString salt = inr rawSalt)
               /\ bad_complexity (decimal time) (decimal memory) (decimal threads) = true
               /\ e = ErrInvalidComplexity)).
Proof.
  intros H.
  destruct (ParseFacts.match_cases t)
    as [Hno | (v & tm & m & th & sa & ha & -> & Hok)].
  - left. rewrite (ParseFacts.parse_no_match t Hno) in H. inversion H.
    split; [ | reflexivity ].
    unfold IsHashedPassword, Regexp.MatchString. now rewrite Hno.
  - right. rewrite ParseFacts.parse_record in H by assumption.
    exists v, tm, m, th, sa, ha. split; [ reflexivity | ]. split; [ assumption | ].
    destruct (Z.eqb_spec (decimal v) argon2_Version) as [Ev | Ev]; cbn [negb] in H.
    + right.
      destruct (Base64.DecodeString ha) as [e1 | rawHash].
      { left. inversion H. auto. }
      right.
      destruct (Base64.DecodeString sa) as [e2 | rawSalt].
      { left. inversion H. eauto. }
      right.
      destruct (bad_complexity (decimal tm) (decimal m) (decimal th));
        [ | discriminate ].
      inversion H. repeat split; eauto.
    + left. inversion H. auto.
Qed.

(** The one decode error of a text of the alphabet. *)
Lemma DecodeString_segment (s : string) :
  segment s ->
  ((String.length s mod 4)%nat = 1%nat
   /\ Base64.DecodeString s = inl (CorruptInputError (Z.of_nat (String.length s) - 1)))
  \/ ((String.length s mod 4)%nat <> 1%nat
      /\ exists b, Base64.DecodeString s = inr b
                   /\ List.length b = (3 * String.length s / 4)%nat
                   /\ (1 <= List.length b)%nat).
Proof.
  intros Hseg. pose proof (ParseFacts.segment_in_alphabet s Hseg) as Hall.
  destruct Hseg as [_ Hlen].
  pose proof (Decode_alphabet s Hall (String.length s) 0 (le_n _)) as D.
  unfold Base64.DecodeString.
  destruct (Nat.eqb_spec (String.length s mod 4) 1) as [E | E].
  - left. split; [ assumption | ]. rewrite D. do 2 f_equal.
  - right. split; [ assumption | ]. destruct D as [b Hb]. exists b.
    split; [ assumption | ].
    pose proof (Decode_length s Hall _ _ _ (le_n _) Hb) as Hl.
    split; [ assumption | ]. rewrite Hl.
    assert (2 <= String.length s)%nat.
    { destruct (String.length s) as [ | [ | n]]; [ lia | cbn in E; lia | lia ]. }
    apply (Nat.div_le_lower_bound (3 * String.length s) 4 1); lia.
Qed.

End TextFacts.

(** ** The library: hashing, parsing and comparing together *)

(** X1.  A text that [HashPassword] returns passes [IsHashedPassword]
    (the primitive returning as many bytes as asked, the parameters
    within their types). *)
Theorem hashed_password_is_recognised
    (IDKey : bytes -> bytes -> Z -> Z -> Z -> Z -> bytes)
    (rd : Reader) (password : string) (time memory threads keyLen : Z) (t : string) :
  (forall pw salt t m p kl, List.length (IDKey pw salt t m p kl) = Z.to_nat kl) ->
  0 <= time <= MaxUint32 -> 0 <= memory <= MaxUint32 ->
  0 <= threads <= MaxUint8 -> 0 <= keyLen <= MaxUint32 ->
  HashPassword IDKey rd password time memory threads keyLen = inr t ->
  IsHashedPassword t = true.
Proof.
  intros HIDKey Ht Hm Hp Hk Hhash.
  destruct (generateSalt rd) as [e | salt] eqn:Hsalt.
  { unfold HashPassword in Hhash. rewrite Hsalt in Hhash. discriminate. }
  pose proof (TextFacts.generateSalt_length rd salt Hsalt) as Hlen.
  destruct (HashFacts.HashPassword_record IDKey HIDKey rd password time memory
              threads keyLen salt Ht Hm Hp Hk Hsalt Hlen) as (Htext & Hok & _).
  rewrite Htext in Hhash. injection Hhash as <-.
  unfold IsHashedPassword, Regexp.MatchString.
  now rewrite RxFacts.rx_complete.
Qed.

Lemma hashed_password_is_recognised_witness :
  IsHashedPassword
    "$argon2id19$2,32768,2$WUDfWUDfWUDfWUDfWUDfWO$DPSTDPSTDPSTDPSTDPSTDPS" = true.
Proof.
  apply (hashed_password_is_recognised Fixture.IDKey Fixture.full_reader "test2"
           2 32768 2 17).
  - intros. unfold Fixture.IDKey. apply repeat_length.
  - unfold MaxUint32. lia.
  - unfold MaxUint32. lia.
  - unfold MaxUint8. lia.
  - unfold MaxUint32. lia.
  - reflexivity.
Defined.

(** X2.  Parsing the text that [HashPassword] returns gives back the
    parameters after defaults, the salt, and the key that was
    derived. *)
Theorem parse_after_hash
    (IDKey : bytes -> bytes -> Z -> Z -> Z -> Z -> bytes)
    (rd : Reader) (password : string) (time memory threads keyLen : Z)
    (salt : bytes) (t : string) :
  (forall pw salt t m p kl, List.length (IDKey pw salt t m p kl) = Z.to_nat kl) ->
  0 <= time <= MaxUint32 -> 0 <= memory <= MaxUint32 ->
  0 <= threads <= MaxUint8 -> 0 <= keyLen <= MaxUint32 ->
  generateSalt rd = inr salt ->
  HashPassword IDKey rd password time memory threads keyLen = inr t ->
  newHashedFromHashedPassword t
  = inr (hashed.mk (or_default time 1) (or_default memory 65536)
           (or_default threads 4)
           (IDKey (bytes_of_string password) salt (or_default time 1)
              (or_default memory 65536) (or_default threads 4)
              (or_default keyLen 32))
           salt).
Proof.
  intros HIDKey Ht Hm Hp Hk Hsalt Hhash.
  pose proof (TextFacts.generateSalt_length rd salt Hsalt) as Hlen.
  destruct (HashFacts.HashPassword_record IDKey HIDKey rd password time memory
              threads keyLen salt Ht Hm Hp Hk Hsalt Hlen) as (Htext & _ & Hparse & _).
  rewrite Htext in Hhash. injection Hhash as <-. exact Hparse.
Qed.

Lemma parse_after_hash_witness :
  newHashedFromHashedPassword
    "$argon2id19$1,65536,2$WUDfWUDfWUDfWUDfWUDfWO$DPSTDPSTDPSTDPSTDPSTDPS"
  = inr (hashed.mk 1 65536 2 (repeat (byte_of_Z 21) 17) (repeat "a"%char 16)).
Proof.
  apply (parse_after_hash Fixture.IDKey Fixture.full_reader "test2" 0 0 2 17
           (repeat "a"%char 16)
           "$argon2id19$1,65536,2$WUDfWUDfWUDfWUDfWUDfWO$DPSTDPSTDPSTDPSTDPSTDPS").
  - intros. unfold Fixture.IDKey. apply repeat_length.
  - unfold MaxUint32. lia.
  - unfold MaxUint32. lia.
  - unfold MaxUint8. lia.
  - unfold MaxUint32. lia.
  - reflexivity.
  - reflexivity.
Defined.

(** X3.  On a text that [HashPassword] returned, [Compare] with any
    password either succeeds or reports
    [ErrMismatchedHashAndPassword], never another error; it succeeds
    exactly when the primitive derives, from that password and the
    salt and parameters of the text, the key of the text. *)
Theorem compare_other_password
    (IDKey : bytes -> bytes -> Z -> Z -> Z -> Z -> bytes)
    (rd : Reader) (password other : string) (time memory threads keyLen : Z)
    (salt : bytes) (t : string) :
  (forall pw salt t m p kl, List.length (IDKey pw salt t m p kl) = Z.to_nat kl) ->
  0 <= time <= MaxUint32 -> 0 <= memory <= MaxUint32 ->
  0 <= threads <= MaxUint8 -> 0 <= keyLen <= MaxUint32 ->
  generateSalt rd = inr salt ->
  HashPassword IDKey rd password time memory threads keyLen = inr t ->
  let derive := fun pw =>
    IDKey (bytes_of_string pw) salt (or_default time 1) (or_default memory 65536)
      (or_default threads 4) (or_default keyLen 32) in
  (Compare IDKey t other = None <-> derive other = derive password)
  /\ (derive other <> derive password ->
      Compare IDKey t other = Some ErrMismatchedHashAndPassword).
Proof.
  intros HIDKey Ht Hm Hp Hk Hsalt Hhash derive.
  pose proof (TextFacts.generateSalt_length rd salt Hsalt) as Hlen.
  destruct (HashFacts.HashPassword_record IDKey HIDKey rd password time memory
              threads keyLen salt Ht Hm Hp Hk Hsalt Hlen)
    as (Htext & _ & Hparse & Hkl & Hk').
  rewrite Htext in Hhash. injection Hhash as <-.
  rewrite (ParseFacts.Compare_parsed IDKey _ other _ Hparse).
  cbv zeta. cbn [hashed.hash hashed.salt hashed.time hashed.memory hashed.threads].
  rewrite Hkl, Z2Nat.id by lia.
  rewrite HashFacts.uint32_small by lia.
  fold (derive other). fold (derive password).
  pose proof (SubtleFacts.ConstantTimeCompare_eq (derive password) (derive other)) as Heq.
  destruct (Z.eqb_spec (Subtle.ConstantTimeCompare (derive password) (derive other)) 1)
    as [E | E].
  - apply Heq in E. split; [ split; congruence | congruence ].
  - split; [ split; [ discriminate | ] | reflexivity ].
    intros Hd. exfalso. apply E, Heq. congruence.
Qed.

Lemma compare_other_password_witness :
  Compare Fixture.IDKey
    "$argon2id19$2,32768,2$WUDfWUDfWUDfWUDfWUDfWO$DPSTDPSTDPSTDPSTDPSTDPS" "bad-password"
  = Some ErrMismatchedHashAndPassword.
Proof.
  assert (Hlen : forall pw salt t m p kl,
             List.length (Fixture.IDKey pw salt t m p kl) = Z.to_nat kl)
    by (intros; unfold Fixture.IDKey; apply repeat_length).
  assert (R32 : forall z, 0 <= z <= 32768 -> 0 <= z <= MaxUint32)
    by (unfold MaxUint32; lia).
  assert (R8 : 0 <= 2 <= MaxUint8) by (unfold MaxUint8; lia).
  destruct (compare_other_password Fixture.IDKey Fixture.full_reader "test2"
              "bad-password" 2 32768 2 17 (repeat "a"%char 16)
              "$argon2id19$2,32768,2$WUDfWUDfWUDfWUDfWUDfWO$DPSTDPSTDPSTDPSTDPSTDPS"
              Hlen (R32 2 ltac:(lia)) (R32 32768 ltac:(lia)) R8 (R32 17 ltac:(lia))
              eq_refl eq_refl) as [_ Hne].
  apply Hne. vm_compute. discriminate.
Defined.

(** X4.  Two runs of [HashPassword] on the same password and
    parameters whose salts differ return different texts. *)
Theorem different_salts_different_texts
    (IDKey : bytes -> bytes -> Z -> Z -> Z -> Z -> bytes)
    (rd1 rd2 : Reader) (password : string) (time memory threads keyLen : Z)
    (salt1 salt2 : bytes) :
  generateSalt rd1 = inr salt1 -> generateSalt rd2 = inr salt2 ->
  salt1 <> salt2 ->
  HashPassword IDKey rd1 password time memory threads keyLen
  <> HashPassword IDKey rd2 password time memory threads keyLen.
Proof.
  intros H1 H2 Hne Heq.
  rewrite (ParseFacts.HashPassword_text IDKey rd1 password _ _ _ _ salt1 H1) in Heq.
  rewrite (ParseFacts.HashPassword_text IDKey rd2 password _ _ _ _ salt2 H2) in Heq.
  cbv zeta in Heq. injection Heq as Heq. unfold record_text in Heq.
  repeat first [ apply TextFacts.append_inv_head in Heq | injection Heq as Heq ].
  apply TextFacts.append_inv_same_length in Heq as [Hs _].
  - apply Hne. now apply TextFacts.EncodeToString_inj.
  - rewrite !TextFacts.EncodeToString_length_eq.
    now rewrite (TextFacts.generateSalt_length rd1 salt1 H1),
      (TextFacts.generateSalt_length rd2 salt2 H2).
Qed.

Lemma different_salts_different_texts_witness :
  HashPassword Fixture.IDKey Fixture.full_reader "test" 0 0 0 0
  <> HashPassword Fixture.IDKey (fun n => (repeat "b"%char n, None)) "test" 0 0 0 0.
Proof.
  apply (different_salts_different_texts Fixture.IDKey Fixture.full_reader
           (fun n => (repeat "b"%char n, None)) "test" 0 0 0 0
           (repeat "a"%char 16) (repeat "b"%char 16));
    [ reflexivity | reflexivity | discriminate ].
Defined.

(** X5.  A record that parses has passed the structural check, and its
    values are within their types without any wrap-around: time
    between 1 and [2^32-1], memory at most [2^32-1], threads between 1
    and 255, and a salt and a key of at least one byte. *)
Theorem parsed_record_invariants (t : string) (h : hashed.t) :
  newHashedFromHashedPassword t = inr h ->
  IsHashedPassword t = true
  /\ 1 <= hashed.time h <= MaxUint32
  /\ 0 <= hashed.memory h <= MaxUint32
  /\ 1 <= hashed.threads h <= MaxUint8
  /\ (1 <= List.length (hashed.hash h))%nat
  /\ (1 <= List.length (hashed.salt h))%nat.
Proof.
  intros H.
  destruct (TextFacts.parse_inr t h H)
    as (v & tm & m & th & sa & ha & -> & Hok & _ & Hh & Hs & Hbad & -> & -> & ->).
  split.
  { unfold IsHashedPassword, Regexp.MatchString. now rewrite RxFacts.rx_complete. }
  destruct Hok as (_ & (Dt & _) & (Dm & _) & (Dp & _) & Ss & Sh).
  apply NumFacts.decimal_nonneg in Dt, Dm, Dp.
  apply HashFacts.bad_complexity_false in Hbad as (Ht & Hm & Hp); [ | assumption.. ].
  rewrite !HashFacts.uint32_small, HashFacts.uint8_small by lia.
  repeat (split; [ lia | ]).
  destruct (TextFacts.DecodeString_segment ha Sh) as [[_ E] | (_ & b & E & _ & Hb)];
    [ congruence | ].
  destruct (TextFacts.DecodeString_segment sa Ss) as [[_ E'] | (_ & b' & E' & _ & Hb')];
    [ congruence | ].
  split; congruence.
Qed.

Lemma parsed_record_invariants_witness :
  IsHashedPassword "$argon2id19$1,0,4$WUHh$YEDxY." = true
  /\ 1 <= 1 <= MaxUint32 /\ 0 <= 0 <= MaxUint32 /\ 1 <= 4 <= MaxUint8
  /\ (1 <= List.length (bytes_of_string "hash"))%nat
  /\ (1 <= List.length (bytes_of_string "abc"))%nat.
Proof.
  exact (parsed_record_invariants "$argon2id19$1,0,4$WUHh$YEDxY."
           (hashed.mk 1 0 4 (bytes_of_string "hash") (bytes_of_string "abc")) eq_refl).
Defined.

(** X6.  [Compare] reports [ErrInvalidHash] exactly on the texts that
    [IsHashedPassword] rejects. *)
Theorem invalid_hash_iff_not_recognised
    (IDKey : bytes -> bytes -> Z -> Z -> Z -> Z -> bytes) (t password : string) :
  Compare IDKey t password = Some ErrInvalidHash <-> IsHashedPassword t = false.
Proof.
  split.
  - intros H.
    destruct (newHashedFromHashedPassword t) as [e | h] eqn:Hparse.
    + rewrite (ParseFacts.Compare_error IDKey t password e Hparse) in H.
      injection H as ->.
      destruct (TextFacts.parse_inl t ErrInvalidHash Hparse)
        as [[Hno _] | (v & tm & m & th & sa & ha & -> & Hok & Hcase)];
        [ assumption | exfalso ].
      destruct Hcase as [[_ E] | [[_ E] | [(_ & _ & E) | (_ & _ & _ & _ & E)]]];
        try discriminate E.
      * destruct Hok as (_ & _ & _ & _ & _ & Sh).
        destruct (TextFacts.DecodeString_segment ha Sh) as [[_ E'] | (_ & b & E' & _)];
          congruence.
      * destruct Hok as (_ & _ & _ & _ & Ss & _).
        destruct (TextFacts.DecodeString_segment sa Ss) as [[_ E'] | (_ & b & E' & _)];
          congruence.
    + rewrite (ParseFacts.Compare_parsed IDKey t password h Hparse) in H.
      cbv zeta in H.
      destruct (Subtle.ConstantTimeCompare _ _ =? 1); discriminate.
  - intros H. apply ParseFacts.Compare_error, ParseFacts.parse_no_match.
    unfold IsHashedPassword, Regexp.MatchString in H.
    destruct (Regexp.match_items rx t); [ discriminate | reflexivity ].
Qed.

(** X7.  The only decode error parsing reports is that of a segment
    whose length is 1 modulo 4, at the position of its last character;
    it is reported for records with the compiled-in version only, and
    for the salt only when the hash decodes. *)
Theorem decode_error_position (t : string) (pos : Z) :
  newHashedFromHashedPassword t = inl (CorruptInputError pos) ->
  exists version time memory threads salt hash,
    t = record_text version time memory threads salt hash
    /\ fields_ok version time memory threads salt hash
    /\ decimal version = argon2_Version
    /\ (((String.length hash mod 4)%nat = 1%nat
         /\ pos = Z.of_nat (String.length hash) - 1)
        \/ ((String.length hash mod 4)%nat <> 1%nat
            /\ (String.length salt mod 4)%nat = 1%nat
            /\ pos = Z.of_nat (String.length salt) - 1)).
Proof.
  intros H.
  destruct (TextFacts.parse_inl t _ H)
    as [[_ E] | (v & tm & m & th & sa & ha & -> & Hok & Hcase)];
    [ discriminate | ].
  exists v, tm, m, th, sa, ha. split; [ reflexivity | ]. split; [ assumption | ].
  destruct Hok as (_ & _ & _ & _ & Ss & Sh).
  destruct Hcase as [[_ E] | [[Ev E] | [(Ev & [rawHash Eh] & E) | (_ & _ & _ & _ & E)]]];
    try discriminate E.
  - split; [ assumption | left ].
    destruct (TextFacts.DecodeString_segment ha Sh) as [[Hm E'] | (_ & b & E' & _)];
      [ | congruence ].
    split; [ assumption | congruence ].
  - split; [ assumption | right ].
    destruct (TextFacts.DecodeString_segment ha Sh) as [[_ E'] | (Hm & _)];
      [ congruence | ].
    split; [ assumption | ].
    destruct (TextFacts.DecodeString_segment sa Ss) as [[Hm' E'] | (_ & b & E' & _)];
      [ | congruence ].
    split; [ assumption | congruence ].
Qed.

Lemma decode_error_position_witness :
  exists version time memory threads salt hash,
    "$argon2id19$1,65536,4$a$J2fO7" = record_text version time memory threads salt hash
    /\ fields_ok version time memory threads salt hash
    /\ decimal version = argon2_Version
    /\ (((String.length hash mod 4)%nat = 1%nat
         /\ 4 = Z.of_nat (String.length hash) - 1)
        \/ ((String.length hash mod 4)%nat <> 1%nat
            /\ (String.length salt mod 4)%nat = 1%nat
            /\ 4 = Z.of_nat (String.length salt) - 1)).
Proof.
  exact (decode_error_position "$argon2id19$1,65536,4$a$J2fO7" 4 eq_refl).
Defined.

(** X8.  Parsing looks at the four numbers of a record only through
    their values: two records of the grammar with the same salt and
    hash texts whose numbers have the same values, leading zeros or
    not, parse alike. *)
Theorem parse_depends_on_values
    (version1 time1 memory1 threads1 version2 time2 memory2 threads2 salt hash : string) :
  fields_ok version1 time1 memory1 threads1 salt hash ->
  fields_ok version2 time2 memory2 threads2 salt hash ->
  decimal version1 = decimal version2 -> decimal time1 = decimal time2 ->
  decimal memory1 = decimal memory2 -> decimal threads1 = decimal threads2 ->
  newHashedFromHashedPassword (record_text version1 time1 memory1 threads1 salt hash)
  = newHashedFromHashedPassword (record_text version2 time2 memory2 threads2 salt hash).
Proof.
  intros Hok1 Hok2 Ev Et Em Ep.
  rewrite !ParseFacts.parse_record by assumption.
  now rewrite Ev, Et, Em, Ep.
Qed.

Lemma parse_depends_on_values_witness :
  newHashedFromHashedPassword "$argon2id0019$01,0000065536,004$WUHh$YEDxY."
  = newHashedFromHashedPassword "$argon2id19$1,65536,4$WUHh$YEDxY.".
Proof.
  apply (parse_depends_on_values "0019" "01" "0000065536" "004" "19" "1" "65536" "4"
           "WUHh" "YEDxY.");
    first [ concrete_fields | reflexivity ].
Defined.

(** X9.  The text [HashPassword] returns has 38 characters besides the
    digits of time, memory and threads and the [(4 keyLen + 2) / 3]
    characters of the key: 88 with the defaults. *)
Theorem hashed_password_length
    (IDKey : bytes -> bytes -> Z -> Z -> Z -> Z -> bytes)
    (rd : Reader) (password : string) (time memory threads keyLen : Z) (t : string) :
  (forall pw salt t m p kl, List.length (IDKey pw salt t m p kl) = Z.to_nat kl) ->
  HashPassword IDKey rd password time memory threads keyLen = inr t ->
  String.length t
  = (38 + String.length (Fmt.FormatInt (or_default time 1))
     + String.length (Fmt.FormatInt (or_default memory 65536))
     + String.length (Fmt.FormatInt (or_default threads 4))
     + (4 * Z.to_nat (or_default keyLen 32) + 2) / 3)%nat.
Proof.
  intros HIDKey Hhash.
  destruct (generateSalt rd) as [e | salt] eqn:Hsalt.
  { unfold HashPassword in Hhash. rewrite Hsalt in Hhash. discriminate. }
  rewrite (ParseFacts.HashPassword_text IDKey rd password _ _ _ _ salt Hsalt) in Hhash.
  cbv zeta in Hhash. injection Hhash as <-.
  unfold record_text. fold (or_default time 1) (or_default memory 65536)
    (or_default threads 4) (or_default keyLen 32).
  change (Fmt.FormatInt argon2_Version) with "19".
  repeat first [ rewrite NumFacts.length_app | progress cbn [String.length append] ].
  rewrite !TextFacts.EncodeToString_length_eq, HIDKey,
    (TextFacts.generateSalt_length rd salt Hsalt).
  change ((4 * saltLen + 2) / 3)%nat with 22%nat. lia.
Qed.

Lemma hashed_password_length_witness :
  String.length "$argon2id19$2,32768,2$WUDfWUDfWUDfWUDfWUDfWO$DPSTDPSTDPSTDPSTDPSTDPS"
  = 68%nat.
Proof.
  exact (hashed_password_length Fixture.IDKey Fixture.full_reader "test2" 2 32768 2 17
           "$argon2id19$2,32768,2$WUDfWUDfWUDfWUDfWUDfWO$DPSTDPSTDPSTDPSTDPSTDPS"
           (fun pw salt t m p kl => repeat_length _ _) eq_refl).
Defined.

(** X10.  The salt and the key of a parsed record have three bytes for
    every four characters of their segments, rounded down; so
    [Compare] asks the primitive for [3 * len(hash) / 4] bytes. *)
Theorem parsed_lengths (version time memory threads salt hash : string) (h : hashed.t) :
  fields_ok version time memory threads salt hash ->
  newHashedFromHashedPassword (record_text version time memory threads salt hash)
  = inr h ->
  List.length (hashed.hash h) = (3 * String.length hash / 4)%nat
  /\ List.length (hashed.salt h) = (3 * String.length salt / 4)%nat.
Proof.
  intros Hok H.
  rewrite ParseFacts.parse_record in H by assumption.
  destruct Hok as (_ & _ & _ & _ & Ss & Sh).
  destruct (negb (decimal version =? argon2_Version)); [ discriminate | ].
  destruct (TextFacts.DecodeString_segment hash Sh) as [[_ E] | (_ & b & E & Hb & _)];
    rewrite E in H; [ discriminate | ].
  destruct (TextFacts.DecodeString_segment salt Ss) as [[_ E'] | (_ & b' & E' & Hb' & _)];
    rewrite E' in H; [ discriminate | ].
  destruct (bad_complexity _ _ _); [ discriminate | ].
  injection H as <-. cbn [hashed.hash hashed.salt]. now split.
Qed.

Lemma parsed_lengths_witness :
  List.length (bytes_of_string "hash") = (3 * String.length "YEDxY." / 4)%nat
  /\ List.length (bytes_of_string "abc") = (3 * String.length "WUHh" / 4)%nat.
Proof.
  assert (Hok : fields_ok "19" "1" "0" "4" "WUHh" "YEDxY.") by concrete_fields.
  exact (parsed_lengths "19" "1" "0" "4" "WUHh" "YEDxY."
           (hashed.mk 1 0 4 (bytes_of_string "hash") (bytes_of_string "abc"))
           Hok eq_refl).
Defined.

(** ** The command: lemmas *)

Module CliFacts.
Import Cli.

Lemma append_nl_nonempty (s : string) : (s ++ nl)%string <> "".
Proof. destruct s; discriminate. Qed.

Lemma usage_nonempty (arg0 defaults : string) : usage arg0 defaults <> "".
Proof. unfold usage. cbn. discriminate. Qed.

Lemma uint32_add_mul (z k : Z) : uint32 (z + k * 2 ^ 32) = uint32 z.
Proof. unfold uint32. apply Z.mod_add. lia. Qed.

Lemma uint8_add_mul (z k : Z) : uint8 (z + k * 2 ^ 8) = uint8 z.
Proof. unfold uint8. apply Z.mod_add. lia. Qed.


Section WithIDKey.

Variable IDKey : bytes -> bytes -> Z -> Z -> Z -> Z -> bytes.

Hypothesis IDKey_length :
  forall pw salt t m p kl, List.length (IDKey pw salt t m p kl) = Z.to_nat kl.


End WithIDKey.

End CliFacts.

(** ** The command *)

(** X11.  A run of the command ends with exit status 0 exactly when it
    wrote nothing to the error writer. *)
Theorem exit_status_zero_iff_no_stderr
    (IDKey : bytes -> bytes -> Z -> Z -> Z -> Z -> bytes) (rd : Reader)
    (arg0 defaults : string) (f : Cli.flags) (readPassword : bytes * option string) :
  let r := Cli.runCommand IDKey rd arg0 defaults f readPassword in
  (Cli.exitStatus r = 0 <-> Cli.stderr r = "")
  /\ (Cli.exitStatus r = 0 \/ Cli.exitStatus r = 1 \/ Cli.exitStatus r = 2).
Proof.
  cbv zeta. unfold Cli.runCommand.
  destruct (Cli.help f).
  { cbn. pose proof (CliFacts.usage_nonempty arg0 defaults).
    split; [ split; [ discriminate | contradiction ] | auto ]. }
  destruct readPassword as [pwBytes [err | ]].
  { cbn. split; [ split; discriminate | auto ]. }
  destruct (Nat.eqb (List.length pwBytes) 0).
  { cbn. split; [ split; discriminate | auto ]. }
  destruct (Nat.ltb 0 (String.length (Cli.compareHashedPassword f))).
  - destruct (Compare IDKey _ _) as [e | ].
    + cbn [Cli.exitStatus Cli.stderr].
      pose proof (CliFacts.append_nl_nonempty (Cli.Error e)).
      destruct e; cbn; (split; [ split; [ discriminate | contradiction ] | auto ]).
    + cbn. split; [ split; reflexivity | auto ].
  - destruct (HashPassword IDKey rd _ _ _ _ _) as [e | t].
    + cbn. split; [ split; discriminate | auto ].
    + cbn. split; [ split; reflexivity | auto ].
Qed.

(** X12.  The exit status is 2 exactly when help was not asked for, a
    password that is not empty was read, a hashed password was given
    with [-c], and [Compare] reported
    [ErrMismatchedHashAndPassword]. *)
Theorem exit_status_mismatch_iff
    (IDKey : bytes -> bytes -> Z -> Z -> Z -> Z -> bytes) (rd : Reader)
    (arg0 defaults : string) (f : Cli.flags) (pwBytes : bytes) (err : option string) :
  Cli.exitStatus (Cli.runCommand IDKey rd arg0 defaults f (pwBytes, err)) = 2
  <-> Cli.help f = false /\ err = None /\ pwBytes <> []
      /\ Cli.compareHashedPassword f <> ""
      /\ Compare IDKey (Cli.compareHashedPassword f) (Cli.string_of_bytes pwBytes)
         = Some ErrMismatchedHashAndPassword.
Proof.
  unfold Cli.runCommand.
  destruct (Cli.help f).
  { cbn. split; [ discriminate | intros [H _]; discriminate ]. }
  destruct err as [e | ].
  { cbn. split; [ discriminate | intros (_ & H & _); discriminate ]. }
  destruct pwBytes as [ | b pw].
  { cbn. split; [ discriminate | intros (_ & _ & H & _); contradiction ]. }
  cbn [List.length Nat.eqb].
  destruct (Cli.compareHashedPassword f) as [ | c0 c] eqn:Hc.
  { cbn [String.length Nat.ltb Nat.leb].
    destruct (HashPassword IDKey rd _ _ _ _ _); cbn;
      (split; [ discriminate | intros (_ & _ & _ & H & _); contradiction ]). }
  cbn [String.length Nat.ltb Nat.leb].
  destruct (Compare IDKey (String c0 c) _) as [e | ]; cbn [Cli.exitStatus].
  - destruct e; cbn;
      (split; [ first [ discriminate | intros _; repeat split; discriminate ]
              | intros (_ & _ & _ & _ & H); first [ discriminate H | reflexivity ] ]).
  - cbn. split; [ discriminate | intros (_ & _ & _ & _ & H); discriminate ].
Qed.



(** X14.  The command converts the numbers of [-time], [-memory] and
    [-keylen] to 32 bits and that of [-threads] to 8 bits: numbers that
    differ by a multiple of [2^32], or of 256 for the threads, give the
    same run.  So [-threads 256] is a run with the default threads. *)
Theorem complexity_flags_wrap
    (IDKey : bytes -> bytes -> Z -> Z -> Z -> Z -> bytes) (rd : Reader)
    (arg0 defaults c : string) (q n h : bool) (time memory threads keyLen : Z)
    (k1 k2 k3 k4 : Z) (readPassword : bytes * option string) :
  Cli.runCommand IDKey rd arg0 defaults
    (Cli.mkFlags c q n (time + k1 * 2 ^ 32) (memory + k2 * 2 ^ 32)
       (threads + k3 * 2 ^ 8) (keyLen + k4 * 2 ^ 32) h) readPassword
  = Cli.runCommand IDKey rd arg0 defaults
      (Cli.mkFlags c q n time memory threads keyLen h) readPassword.
Proof.
  unfold Cli.runCommand.
  cbn [Cli.help Cli.quiet Cli.omitNewline Cli.compareHashedPassword
       Cli.timeComplexity Cli.memoryComplexity Cli.numThreads Cli.keyLen].
  now rewrite !CliFacts.uint32_add_mul, CliFacts.uint8_add_mul.
Qed.

(** ** Which texts parse *)

Module LastFacts.

Lemma last_char_app (a b : string) : b <> "" -> last_char (a ++ b) = last_char b.
Proof.
  intros Hb. induction a as [ | c a IH]; [ reflexivity | ].
  cbn [append last_char]. rewrite IH.
  destruct (a ++ b)%string eqn:E; [ | reflexivity ].
  destruct a; [ cbn in E; contradiction | discriminate ].
Qed.

Lemma last_char_forall (p : ascii -> bool) (s : string) (c : ascii) :
  string_forall p s = true -> last_char s = Some c -> p c = true.
Proof.
  induction s as [ | d s IH]; [ discriminate | ].
  cbn [string_forall]. intros H Hl. apply andb_true_iff in H as [Hd Hs].
  destruct s as [ | e s]; [ cbn in Hl; congruence | ].
  apply IH; assumption.
Qed.

(** A text of the grammar ends with a character of the alphabet. *)
Lemma record_text_last (version time memory threads salt hash : string) :
  fields_ok version time memory threads salt hash ->
  exists c,
    last_char (record_text version time memory threads salt hash) = Some c
    /\ is_alphabet_char c = true.
Proof.
  intros (_ & _ & _ & _ & _ & [Hall Hlen]).
  assert (Hne : hash <> "") by (destruct hash; [ cbn in Hlen; lia | discriminate ]).
  unfold record_text.
  repeat (rewrite last_char_app
            by first [ exact Hne
                     | destruct version, time, memory, threads, salt; discriminate ]).
  destruct (last_char hash) as [c | ] eqn:Hl.
  - exists c. split; [ reflexivity | ]. eapply last_char_forall; eauto.
  - exfalso. clear - Hl Hne. induction hash as [ | d h IH]; [ contradiction | ].
    destruct h; [ discriminate | ]. apply IH; [ discriminate | exact Hl ].
Qed.

End LastFacts.

(** X15.  A record of the grammar parses exactly when its version is
    the compiled-in one, neither its hash nor its salt has a length of
    1 modulo 4, its time is between 1 and [2^32-1], its memory at most
    [2^32-1] and its threads between 1 and 255. *)
Theorem parse_succeeds_iff (version time memory threads salt hash : string) :
  fields_ok version time memory threads salt hash ->
  ((exists h, newHashedFromHashedPassword
                (record_text version time memory threads salt hash) = inr h)
   <-> decimal version = argon2_Version
       /\ (String.length hash mod 4)%nat <> 1%nat
       /\ (String.length salt mod 4)%nat <> 1%nat
       /\ 1 <= decimal time <= MaxUint32
       /\ decimal memory <= MaxUint32
       /\ 1 <= decimal threads <= MaxUint8).
Proof.
  intros Hok. rewrite ParseFacts.parse_record by assumption.
  destruct Hok as (_ & (Dt & _) & (Dm & _) & (Dp & _) & Ss & Sh).
  apply NumFacts.decimal_nonneg in Dt, Dm, Dp.
  pose proof (HashFacts.bad_complexity_false (decimal time) (decimal memory)
                (decimal threads) Dt Dp) as Hbad.
  destruct (Z.eqb_spec (decimal version) argon2_Version) as [Ev | Ev]; cbn [negb].
  2:{ split; [ intros [h H]; discriminate | intros [H _]; contradiction ]. }
  destruct (TextFacts.DecodeString_segment hash Sh) as [[Mh E] | (Mh & b & E & _)];
    rewrite E.
  { split; [ intros [h H]; discriminate | intros (_ & H & _); contradiction ]. }
  destruct (TextFacts.DecodeString_segment salt Ss) as [[Ms E'] | (Ms & b' & E' & _)];
    rewrite E'.
  { split; [ intros [h H]; discriminate | intros (_ & _ & H & _); contradiction ]. }
  destruct (bad_complexity (decimal time) (decimal memory) (decimal threads)).
  - split; [ intros [h H]; discriminate | ].
    intros (_ & _ & _ & H). assert (true = false) by (apply Hbad; tauto). discriminate.
  - split; [ intros _ | eauto ].
    destruct (proj1 Hbad eq_refl) as (? & ? & ?). tauto.
Qed.

Lemma parse_succeeds_iff_witness :
  (exists h, newHashedFromHashedPassword "$argon2id19$1,0,4$WUHh$YEDxY." = inr h)
  <-> decimal "19" = argon2_Version
      /\ (String.length "YEDxY." mod 4)%nat <> 1%nat
      /\ (String.length "WUHh" mod 4)%nat <> 1%nat
      /\ 1 <= decimal "1" <= MaxUint32
      /\ decimal "0" <= MaxUint32
      /\ 1 <= decimal "4" <= MaxUint8.
Proof.
  assert (Hok : fields_ok "19" "1" "0" "4" "WUHh" "YEDxY.") by concrete_fields.
  exact (parse_succeeds_iff "19" "1" "0" "4" "WUHh" "YEDxY." Hok).
Defined.

(** X16.  The pattern is anchored at the end of the text: a text that
    ends with a character outside the alphabet, a line feed for one, is
    rejected by [IsHashedPassword] and by [Compare], with
    [ErrInvalidHash].  So what the command prints with its final line
    feed is not accepted by [-c]. *)
Theorem trailing_character_rejected
    (IDKey : bytes -> bytes -> Z -> Z -> Z -> Z -> bytes)
    (t password : string) (c : ascii) :
  is_alphabet_char c = false ->
  IsHashedPassword (t ++ String c "") = false
  /\ Compare IDKey (t ++ String c "") password = Some ErrInvalidHash.
Proof.
  intros Hc.
  assert (Hno : Regexp.match_items rx (t ++ String c "") = None).
  { destruct (ParseFacts.match_cases (t ++ String c ""))
      as [Hno | (v & tm & m & th & sa & ha & Heq & Hok)]; [ assumption | exfalso ].
    destruct (LastFacts.record_text_last v tm m th sa ha Hok) as (d & Hl & Hd).
    rewrite <- Heq, LastFacts.last_char_app in Hl by discriminate.
    cbn in Hl. congruence. }
  split.
  - unfold IsHashedPassword, Regexp.MatchString. now rewrite Hno.
  - now apply ParseFacts.Compare_error, ParseFacts.parse_no_match.
Qed.

Lemma trailing_character_rejected_witness :
  IsHashedPassword ("$argon2id19$1,65536,4$WUHh$YEDxY." ++ Cli.nl) = false
  /\ Compare Fixture.IDKey ("$argon2id19$1,65536,4$WUHh$YEDxY." ++ Cli.nl) "test"
     = Some ErrInvalidHash.
Proof.
  exact (trailing_character_rejected Fixture.IDKey
           "$argon2id19$1,65536,4$WUHh$YEDxY." "test" "010"%char eq_refl).
Defined.

(** * The tests of the command, on the embedding *)

Module CommandTests.
Import Cli CommandFixture.

Example TestRunCommandWithHelp :
  let r := run (mkFlags "" false false 0 0 0 0 true) "" None in
  exitStatus r = exitStatusError /\ stdout r = ""
  /\ String.prefix "usage of argon2id" (stderr r) = true.
Proof. repeat split; reflexivity. Qed.

Example TestRunCommandWithoutPassword :
  run (mkFlags "" false false 0 0 0 0 false) "" None
  = mkOutcome exitStatusError prompt ("a password is required" ++ nl).
Proof. reflexivity. Qed.

Example TestRunCommandWithoutPasswordFailure :
  run (mkFlags "" false false 0 0 0 0 false) ""
    (Some "terminal: could not prompt for password")
  = mkOutcome exitStatusError prompt
      ("could not read password: terminal: could not prompt for password" ++ nl).
Proof. reflexivity. Qed.

Example TestRunCommandWithHashingError :
  runCommand Fixture.IDKey Fixture.short_reader "argon2id" ""
    (mkFlags "" false false 0 0 0 0 false) (bytes_of_string "my-password", None)
  = mkOutcome exitStatusError (prompt ++ nl) "could not hash password: unexpected EOF".
Proof. reflexivity. Qed.

Example TestRunCommandWithCustomComplexity :
  let r := run (mkFlags "" false true 2 1024 2 24 false) "my-password" None in
  exitStatus r = exitStatusNormal /\ stderr r = ""
  /\ String.length (stdout r) = (String.length prompt + 1 + 76)%nat
  /\ String.prefix (prompt ++ nl ++ "$argon2id19$2,1024,2$") (stdout r) = true.
Proof. repeat split; reflexivity. Qed.

Example TestRunCommandCompareWithInvalidHash :
  run (mkFlags "bad-hash" false false 0 0 0 0 false) "different-password" None
  = mkOutcome exitStatusError (prompt ++ nl) (Error ErrInvalidHash ++ nl).
Proof. reflexivity. Qed.

End CommandTests.
